(** * TDL2048-Demo: the 2x2 2048 board engine and its TD(0) controller

    A shallow embedding of [2048.cpp]: the [board] class (packed
    encoding, the four moves, the symmetry primitives), the weight table
    [V], the learning loop of [main], and the texts that [name()] and
    [operator<<] produce.

    C++ [int] values are modelled as [Z]. Signed overflow is undefined in
    C++, so the signed operations are written without wrap-around and the
    theorems state the rank ranges they rely on; the one place where the
    source computes in [unsigned] (the score accumulation) has its
    modulus written out. C++ [float] is IEEE binary32, modelled by the
    executable specification of the Standard Library at precision 24. *)

From Stdlib Require Import Ascii String.
From Stdlib Require Import ZArith Lia Bool List.
From Stdlib Require Import Floats.SpecFloat.
From stdpp Require Import base option list.

Local Open Scope Z_scope.

(** ** Machine integers *)

Definition wrap_unsigned (z : Z) : Z := z mod 2 ^ 32.

Definition to_signed (u : Z) : Z :=
  let m := wrap_unsigned u in if m <? 2 ^ 31 then m else m - 2 ^ 32.

(** [(1 << r) & -2u]: the [int] shift is converted to [unsigned] and
    masked with [0xFFFFFFFE]. *)
Definition tile_value (r : Z) : Z :=
  Z.land (wrap_unsigned (Z.shiftl 1 r)) 4294967294.

(** [score += u] with [score : int] and [u : unsigned]: the sum is taken
    in [unsigned] and converted back to [int]. *)
Definition add_score (score u : Z) : Z :=
  to_signed (wrap_unsigned score + u).

(** ** The board *)

(** [std::array<std::array<int, 2>, 2> tile], row-major. *)
Record board : Type := Board { t00 : Z; t01 : Z; t10 : Z; t11 : Z }.

(** [board()] *)
Definition board_empty : board := Board 0 0 0 0.

(** [operator int()] *)
Definition operator_int (b : board) : Z :=
  t00 b * 4096 + t01 b * 256 + t10 b * 16 + t11 b.

(** [operator=(int v)] and [board(int v)] *)
Definition operator_assign (v : Z) : board :=
  {| t00 := Z.land (Z.shiftr v 12) 15;
     t01 := Z.land (Z.shiftr v 8) 15;
     t10 := Z.land (Z.shiftr v 4) 15;
     t11 := Z.land v 15 |}.

(** The cell list of a board, used to speak about its ranks as a
    multiset. *)
Definition cells (b : board) : list Z := [t00 b; t01 b; t10 b; t11 b].

(** Every cell is a nibble: the boards that [operator=] produces. *)
Definition rank_ok (r : Z) : Prop := 0 <= r <= 15.
Definition board_ok (b : board) : Prop :=
  rank_ok (t00 b) /\ rank_ok (t01 b) /\ rank_ok (t10 b) /\ rank_ok (t11 b).

(** *** Symmetry primitives *)

Definition transpose (b : board) : board :=
  {| t00 := t00 b; t01 := t10 b; t10 := t01 b; t11 := t11 b |}.

Definition mirror (b : board) : board :=
  {| t00 := t01 b; t01 := t00 b; t10 := t11 b; t11 := t10 b |}.

Definition flip (b : board) : board :=
  {| t00 := t10 b; t01 := t11 b; t10 := t00 b; t11 := t01 b |}.

(** [%] of C++ truncates towards zero: [Z.rem]. *)
Definition rotate (r : Z) (b : board) : board :=
  match Z.rem (Z.rem r 4 + 4) 4 with
  | 1 => mirror (transpose b)
  | 2 => flip (mirror b)
  | 3 => flip (transpose b)
  | _ => b
  end.

Definition isomorphic (i : Z) (b : board) : board :=
  let iso := Z.rem (Z.rem i 8 + 8) 8 in
  let b := if 4 <? iso then mirror b else b in
  rotate iso b.

(** *** Moves *)

(** The body of the loop of [left] on one row, threading [score]. *)
Definition left_row (row : Z * Z) (score : Z) : (Z * Z) * Z :=
  let '(r0, r1) := row in
  if r0 =? 0 then ((r1, 0), score)
  else if r0 =? r1 then ((r0 + 1, 0), add_score score (tile_value (r0 + 1)))
  else ((r0, r1), score).

(** Each move returns the [int] result together with the board it leaves
    in [*this]. *)
Definition left (b : board) : Z * board :=
  let now := operator_int b in
  let '((a0, a1), score) := left_row (t00 b, t01 b) 0 in
  let '((c0, c1), score) := left_row (t10 b, t11 b) score in
  let b' := Board a0 a1 c0 c1 in
  (if operator_int b' =? now then -1 else score, b').

Definition right (b : board) : Z * board :=
  let '(score, b') := left (mirror b) in
  (score, mirror b').

Definition up (b : board) : Z * board :=
  let '(score, b') := right (rotate 1 b) in
  (score, rotate (-1) b').

Definition down (b : board) : Z * board :=
  let '(score, b') := left (rotate 1 b) in
  (score, rotate (-1) b').

Definition move (opcode : Z) (b : board) : Z * board :=
  match opcode with
  | 0 => up b
  | 1 => right b
  | 2 => down b
  | 3 => left b
  | _ => (-1, b)
  end.

(** [next()], with the two values drawn from [std::rand()] as inputs (a
    full board returns before drawing). *)
Definition next (rand1 rand2 : Z) (b : board) : board :=
  let space :=
    (if t00 b =? 0 then [0] else []) ++ (if t01 b =? 0 then [1] else []) ++
    (if t10 b =? 0 then [2] else []) ++ (if t11 b =? 0 then [3] else []) in
  let num := Z.of_nat (length space) in
  if num =? 0 then b
  else
    let pos := nth (Z.to_nat (Z.rem rand1 num)) space 0 in
    let pop := if Z.rem rand2 10 =? 0 then 2 else 1 in
    match pos with
    | 0 => {| t00 := pop; t01 := t01 b; t10 := t10 b; t11 := t11 b |}
    | 1 => {| t00 := t00 b; t01 := pop; t10 := t10 b; t11 := t11 b |}
    | 2 => {| t00 := t00 b; t01 := t01 b; t10 := pop; t11 := t11 b |}
    | _ => {| t00 := t00 b; t01 := t01 b; t10 := t10 b; t11 := pop |}
    end.

(** ** Binary32 arithmetic *)

Abbreviation float := spec_float.

Definition prec32 : Z := 24.
Definition emax32 : Z := 128.

Definition fadd : float -> float -> float := SFadd prec32 emax32.
Definition fsub : float -> float -> float := SFsub prec32 emax32.
Definition fmul : float -> float -> float := SFmul prec32 emax32.
Definition fneg : float -> float := SFopp.

(** [x > y] on [float]; false as soon as one side is a NaN. *)
Definition fgt (x y : float) : bool := SFltb y x.

(** Conversion of an [int] to [float], rounding to nearest even. *)
Definition float_of_int (z : Z) : float := binary_normalize prec32 emax32 z 0 false.

Definition fzero : float := S754_zero false.

(** [std::numeric_limits<float>::max()] *)
Definition FLT_MAX : float := SFmax_float prec32 emax32.

(** The literal [0.01] is the binary64 number nearest to 1/100; the
    initialisation [float alpha = 0.01] rounds it to binary32. *)
Definition double_0_01 : spec_float :=
  SFdiv 53 1024 (binary_normalize 53 1024 1 0 false) (binary_normalize 53 1024 100 0 false).

Definition float_of_double (d : spec_float) : float :=
  match d with
  | S754_finite s m e => binary_round prec32 emax32 s m e
  | _ => d
  end.

Definition alpha : float := Eval vm_compute in float_of_double double_0_01.

(** ** The weight table *)

(** [float weight[6 * 6 * 6 * 6] = { 0 }] *)
Definition weight_size : nat := 1296.
Definition weight_init : list float := replicate weight_size fzero.

Definition V_index (b : board) : Z :=
  t00 b * 6 * 6 * 6 + t01 b * 6 * 6 + t10 b * 6 + t11 b.

(** Reading through the reference returned by the lambda [V]; an index
    outside the array has no defined behaviour and yields [None]. *)
Definition V (weight : list float) (b : board) : option float :=
  if V_index b <? 0 then None else weight !! Z.to_nat (V_index b).

(** [V(b) += upd] *)
Definition V_add (weight : list float) (b : board) (upd : float) : option (list float) :=
  u ← V weight b;
  Some (<[Z.to_nat (V_index b) := fadd u upd]> weight).

(** [int isomorphic = 8] of [main]. *)
Definition isomorphic_count : nat := 8.

(** The loop of [train_isomorphic]; [trained] holds the packed values
    pushed so far, [std::find] compares them with [int(iso)]. *)
Fixpoint train_loop (b : board) (upd : float) (ks : list nat)
    (trained : list Z) (weight : list float) : option (list float) :=
  match ks with
  | [] => Some weight
  | i :: ks =>
      let iso := isomorphic (Z.of_nat i) b in
      if bool_decide (operator_int iso ∈ trained)
      then train_loop b upd ks trained weight
      else
        weight' ← V_add weight iso upd;
        train_loop b upd ks (trained ++ [operator_int iso]) weight'
  end.

Definition train_isomorphic (weight : list float) (b : board) (upd : float)
    : option (list float) :=
  train_loop b upd (seq 0 isomorphic_count) [] weight.

(** ** Action evaluation and selection *)

(** The locals [a], [r], [v] and [x] of the loop body of [main]. *)
Record scored : Type := Scored
  { ev_a : list board; ev_r : list Z; ev_v : list float; ev_x : nat }.

Definition scored_init (b : board) : scored :=
  {| ev_a := [b; b; b; b];
     ev_r := [-1; 0; 0; 0];
     ev_v := [fneg FLT_MAX; fzero; fzero; fzero];
     ev_x := 0%nat |}.

(** One iteration of [for (int op = 0; op < 4; op++)]. *)
Definition evaluate_op (weight : list float) (st : scored) (op : nat) : option scored :=
  b ← ev_a st !! op;
  let '(rw, b') := move (Z.of_nat op) b in
  let a := <[op := b']> (ev_a st) in
  let r := <[op := rw]> (ev_r st) in
  if rw =? -1 then Some (Scored a r (ev_v st) (ev_x st))
  else
    u ← V weight b';
    let v := <[op := fadd (float_of_int rw) u]> (ev_v st) in
    vop ← v !! op;
    vx ← v !! ev_x st;
    Some (Scored a r v (if fgt vop vx then op else ev_x st)).

Fixpoint evaluate_loop (weight : list float) (ops : list nat) (st : scored)
    : option scored :=
  match ops with
  | [] => Some st
  | op :: ops => st' ← evaluate_op weight st op; evaluate_loop weight ops st'
  end.

Definition evaluate (weight : list float) (b : board) : option scored :=
  evaluate_loop weight (seq 0 4) (scored_init b).

(** ** The learning controller *)

(** [bool forward = true; bool backward = false;] are the two switches of
    [main]; they are kept as a configuration so that both modes can be
    stated. *)
Record config : Type := Config { forward : bool; backward : bool }.
Definition default_config : config := Config true false.

(** The value [exact] of the forward block: [r[x] != -1 ? v[x] : 0]. *)
Definition forward_target (ev : scored) : option float :=
  rx ← ev_r ev !! ev_x ev;
  vx ← ev_v ev !! ev_x ev;
  Some (if rx =? -1 then fzero else vx).

(** [if (forward && history.size() > 1) { ... }] *)
Definition forward_update (cfg : config) (weight : list float)
    (history : list board) (ev : scored) : option (list float) :=
  if forward cfg && (1 <? length history)%nat then
    exact ← forward_target ev;
    prior ← history !! (length history - 2)%nat;
    u ← V weight prior;
    let upd := fmul alpha (fsub exact u) in
    train_isomorphic weight prior upd
  else Some weight.

Record learner : Type := Learner
  { weight : list float; history : list board; actions : list nat }.

(** One iteration of the inner [while (true)]: the board [b] is the
    local of that name; the result carries the board for the next
    iteration, or [None] after [break]. *)
Definition play_step (cfg : config) (rand1 rand2 : Z) (st : learner) (b : board)
    : option (learner * option board) :=
  let b := next rand1 rand2 b in
  let history := history st ++ [b] in
  ev ← evaluate (weight st) b;
  weight' ← forward_update cfg (weight st) history ev;
  rx ← ev_r ev !! ev_x ev;
  if rx =? -1 then Some (Learner weight' history (actions st), None)
  else
    ax ← ev_a ev !! ev_x ev;
    Some (Learner weight' (history ++ [ax]) (actions st ++ [ev_x ev]), Some ax).

(** The inner loop, run on a supply of random draws; [None] when the
    supply ends before the episode does. *)
Fixpoint play (cfg : config) (rands : list (Z * Z)) (st : learner) (b : board)
    : option learner :=
  match rands with
  | [] => None
  | (rand1, rand2) :: rands =>
      res ← play_step cfg rand1 rand2 st b;
      match res with
      | (st', Some b') => play cfg rands st' b'
      | (st', None) => Some st'
      end
  end.

(** The [while (history.size())] loop of the backward block. Each
    iteration pops two boards, so [length history] iterations suffice;
    [back()] of an empty vector has no defined behaviour. *)
Fixpoint backward_loop (fuel : nat) (weight : list float) (history : list board)
    (actions : list nat) (exact : float) : option (list float) :=
  match fuel with
  | O => match history with [] => Some weight | _ => None end
  | S fuel =>
      match history with
      | [] => Some weight
      | _ =>
          s ← last history;
          v ← V weight s;
          let upd := fmul alpha (fsub exact v) in
          weight' ← train_isomorphic weight s upd;
          let history := removelast history in
          before ← last history;
          x ← last actions;
          let r := fst (move (Z.of_nat x) before) in
          v' ← V weight' s;
          let exact := fadd v' (float_of_int r) in
          backward_loop fuel weight' (removelast history) (removelast actions) exact
      end
  end.

(** [if (backward) { ... }] *)
Definition backward_replay (cfg : config) (st : learner) : option (list float) :=
  if backward cfg then
    match history st with
    | [] => None
    | _ =>
        let history := removelast (history st) in
        backward_loop (length history) (weight st) history (actions st) fzero
    end
  else Some (weight st).

(** One episode: play from the empty board, then replay backwards. *)
Definition episode (cfg : config) (rands : list (Z * Z)) (weight : list float)
    : option (list float) :=
  st ← play cfg rands (Learner weight [] []) board_empty;
  backward_replay cfg st.

(** ** Derived notions used by the statements *)

(** The board on which the loop of [left] runs when [move] is called
    with [opcode]: [up] and [down] rotate first, [up] and [right]
    mirror. *)
Definition frame (opcode : Z) (b : board) : board :=
  match opcode with
  | 0 => mirror (rotate 1 b)
  | 1 => mirror b
  | 2 => rotate 1 b
  | _ => b
  end.

(** The value of [score] when the loop of [left] ends. *)
Definition left_score (b : board) : Z :=
  snd (left_row (t10 b, t11 b) (snd (left_row (t00 b, t01 b) 0))).

(** Ranks that index the weight table. *)
Definition digit_ok (r : Z) : Prop := 0 <= r <= 5.
Definition table_ok (b : board) : Prop :=
  digit_ok (t00 b) /\ digit_ok (t01 b) /\ digit_ok (t10 b) /\ digit_ok (t11 b).

(** The board [iso] of iteration [i] of [train_isomorphic]. *)
Definition variant (b : board) (i : nat) : board := isomorphic (Z.of_nat i) b.

(** [k] is the table position of one of the nominal variants of [b]. *)
Definition variant_index (b : board) (k : nat) : Prop :=
  exists i, (i < isomorphic_count)%nat /\ k = Z.to_nat (V_index (variant b i)).

(** A float that is neither negative nor a negative zero (a NaN has no
    sign here). *)
Definition sign_clear (x : float) : bool :=
  match x with
  | S754_zero s | S754_infinity s | S754_finite s _ _ => negb s
  | S754_nan => true
  end.

Definition is_nan (x : float) : bool :=
  match x with S754_nan => true | _ => false end.

(** A float that is [+0], positive and finite, or [+inf]. *)
Definition nonneg (x : float) : bool := sign_clear x && negb (is_nan x).

(** The outcome of direction [op] on the before-state [b]. *)
Definition reward (b : board) (op : nat) : Z := fst (move (Z.of_nat op) b).
Definition afterstate (b : board) (op : nat) : board := snd (move (Z.of_nat op) b).
Definition legal (b : board) (op : nat) : bool := negb (reward b op =? -1).

(** The candidate value [r[op] + V(a[op])] of a direction. *)
Definition candidate (weight : list float) (b : board) (op : nat) : option float :=
  u ← V weight (afterstate b op);
  Some (fadd (float_of_int (reward b op)) u).

(** The initial contents of the arrays [r] and [v]. *)
Definition r_init : list Z := [-1; 0; 0; 0].
Definition v_init : list float := [fneg FLT_MAX; fzero; fzero; fzero].

(** What [v[op]] holds once iteration [op] is over. *)
Definition v_entry (weight : list float) (b : board) (op : nat) : float :=
  if legal b op then default fzero (candidate weight b op)
  else default fzero (v_init !! op).

(** The value of [x] after the first [k] iterations. *)
Fixpoint select (weight : list float) (b : board) (k : nat) : nat :=
  match k with
  | O => 0
  | S k =>
      let x := select weight b k in
      if legal b k && fgt (v_entry weight b k) (v_entry weight b x) then k else x
  end.

(** The locals after the first [k] iterations. *)
Definition scored_at (weight : list float) (b : board) (k : nat) : scored :=
  {| ev_a := (afterstate b <$> seq 0 k) ++ drop k [b; b; b; b];
     ev_r := (reward b <$> seq 0 k) ++ drop k r_init;
     ev_v := (v_entry weight b <$> seq 0 k) ++ drop k v_init;
     ev_x := select weight b k |}.

(** ** Backward replay, as the specification words it

    An episode is recorded as its steps: the before-state, the action
    taken and the afterstate it produced. The replay visits the steps
    from the last one to the first with a running return [exact]: it
    trains the afterstate towards [exact] through [train_isomorphic], the
    rule of the forward mode, and then sets [exact] to the value read
    back at that afterstate plus the reward of the recorded action on the
    before-state. *)
Record step : Type := Step { before : board; action : nat; after : board }.

Fixpoint replay_spec (steps_rev : list step) (weight : list float) (exact : float)
    : option (list float) :=
  match steps_rev with
  | [] => Some weight
  | s :: earlier =>
      u ← V weight (after s);
      let delta := fmul alpha (fsub exact u) in
      weight' ← train_isomorphic weight (after s) delta;
      u' ← V weight' (after s);
      let exact := fadd u' (float_of_int (reward (before s) (action s))) in
      replay_spec earlier weight' exact
  end.

(** The vectors [history] and [actions] that the steps leave. *)
Definition history_of (steps : list step) : list board :=
  flat_map (fun s => [before s; after s]) steps.
Definition actions_of (steps : list step) : list nat := action <$> steps.

(** ** Further derived notions *)

(** The face value that [operator<<] prints for each cell, summed over
    the board. *)
Definition face (b : board) : Z :=
  tile_value (t00 b) + tile_value (t01 b) + tile_value (t10 b) + tile_value (t11 b).

(** The boards that [isomorphic] can produce from [b]. *)
Definition seven (b : board) : list board :=
  [b; rotate 1 b; rotate 2 b; rotate 3 b;
   rotate 1 (mirror b); rotate 2 (mirror b); rotate 3 (mirror b)].

(** A row that the loop of [left] leaves as it is. *)
Definition row_stuck (r0 r1 : Z) : Prop :=
  (r0 = 0 /\ r1 = 0) \/ (r0 <> 0 /\ r0 <> r1).

(** No cell is empty and no two neighbours hold the same rank. *)
Definition jammed (b : board) : Prop :=
  t00 b <> 0 /\ t01 b <> 0 /\ t10 b <> 0 /\ t11 b <> 0 /\
  t00 b <> t01 b /\ t10 b <> t11 b /\ t00 b <> t10 b /\ t01 b <> t11 b.

(** The array [space] of [next] and the assignment [tile[pos / 2][pos % 2] = pop]. *)
Definition space (b : board) : list Z :=
  (if t00 b =? 0 then [0] else []) ++ (if t01 b =? 0 then [1] else []) ++
  (if t10 b =? 0 then [2] else []) ++ (if t11 b =? 0 then [3] else []).

Definition place (pos pop : Z) (b : board) : board :=
  match pos with
  | 0 => {| t00 := pop; t01 := t01 b; t10 := t10 b; t11 := t11 b |}
  | 1 => {| t00 := t00 b; t01 := pop; t10 := t10 b; t11 := t11 b |}
  | 2 => {| t00 := t00 b; t01 := t01 b; t10 := pop; t11 := t11 b |}
  | _ => {| t00 := t00 b; t01 := t01 b; t10 := t10 b; t11 := pop |}
  end.

(** The cell of [b] at position [pos] of the row-major order. *)
Definition cell (pos : Z) (b : board) : Z :=
  match pos with 0 => t00 b | 1 => t01 b | 2 => t10 b | _ => t11 b end.

(** The way back from the frame of a move: what [right], [up] and [down]
    apply to the board after the loop of [left]. *)
Definition unframe (opcode : Z) (b : board) : board :=
  match opcode with
  | 0 => rotate (-1) (mirror b)
  | 1 => mirror b
  | 2 => rotate (-1) b
  | _ => b
  end.

(** What a row adds to the score. *)
Definition gain (r0 r1 : Z) : Z :=
  if r0 =? 0 then 0 else if r0 =? r1 then 2 ^ (r0 + 1) else 0.

(** ** The boards of an episode

    The boards that [next] can produce from a board, the boards that a
    legal [move] can produce, and the set of boards that the variable [b]
    of the playing loop can hold at the head of an iteration, computed by
    exploring from the empty board. Boards are listed by their packed
    value. *)
Definition spawns (b : board) : list board :=
  pos ← space b; pop ← [1; 2]; [place pos pop b].

(** The afterstates of the legal directions. *)
Definition moves_of (b : board) : list board :=
  op ← seq 0 4; if legal b op then [afterstate b op] else [].

(** From a board at the loop head to the boards at the next loop head:
    one insertion, then one legal move. *)
Definition successors (v : Z) : list Z :=
  operator_int <$> (spawns (operator_assign v) ≫= moves_of).

Definition memZ (v : Z) (l : list Z) : bool := existsb (Z.eqb v) l.

(** Breadth-first exploration; 31 rounds are more than the longest
    episode has moves. *)
Definition add_new (seen new : list Z) : list Z :=
  fold_left (fun acc v => if memZ v acc then acc else acc ++ [v]) new seen.

Fixpoint explore (fuel : nat) (seen : list Z) : list Z :=
  match fuel with
  | O => seen
  | S fuel => explore fuel (add_new seen (seen ≫= successors))
  end.

Definition reach_set : list Z := Eval vm_compute in explore 31 [0].

(** [table_ok] as a test. *)
Definition table_okb (b : board) : bool :=
  forallb (fun r => (0 <=? r) && (r <=? 5)) (cells b).

(** The set is closed: from each of its boards every insertion gives a
    board within the table and of face value at most 60, from which
    every legal move leads back into the set. *)
Definition head_check (v : Z) : bool :=
  let a := operator_assign v in
  (0 <=? v) && (v <? 65536) &&
  negb (Nat.eqb (length (space a)) 0) && table_okb a &&
  forallb (fun b1 =>
    table_okb b1 && (face b1 <=? 60) &&
    forallb (fun op =>
      negb (legal b1 op) ||
      (memZ (operator_int (afterstate b1 op)) reach_set && table_okb (afterstate b1 op)))
      (seq 0 4))
    (spawns a).

Definition reach_closed : bool := memZ 0 reach_set && forallb head_check reach_set.

(** The board [b] of the loop head is in the set. *)
Definition head_ok (b : board) : Prop :=
  board_ok b /\ memZ (operator_int b) reach_set = true.

(** The steps of an episode follow each other: each before-state is an
    insertion into the previous afterstate, each action is one of the
    four directions and legal, each afterstate is the board it leaves. *)
Fixpoint linked (prev : board) (steps : list step) : Prop :=
  match steps with
  | [] => True
  | s :: rest =>
      before s ∈ spawns prev /\ (action s < 4)%nat /\
      legal (before s) (action s) = true /\
      after s = afterstate (before s) (action s) /\
      linked (after s) rest
  end.

(** The afterstate that the last step leaves, [prev] when there is no
    step. *)
Definition last_after (prev : board) (steps : list step) : board :=
  default prev (after <$> last steps).

(** The outer [for (size_t i = 1; true; i++)] of [main], run for as many
    episodes as there are supplies of draws. Each episode starts from a
    fresh [board b] and, after [history.clear(); actions.clear();], from
    empty vectors; only the table passes from one episode to the next. *)
Fixpoint episodes (cfg : config) (draws : list (list (Z * Z))) (weight : list float)
    : option (list float) :=
  match draws with
  | [] => Some weight
  | rands :: draws => weight' ← episode cfg rands weight; episodes cfg draws weight'
  end.

(** ** Sample inputs *)

(** A table that holds the same value at every entry. *)
Definition weight_all (x : float) : list float := replicate weight_size x.

(** A finished episode of four moves: the draws, and the steps that the
    playing loop records for them from the all-zero table when the
    forward update is off. The last move merges two 2-tiles for a reward
    of 4, and the board that follows, (1,2,2,1), has no legal move. *)
Definition short_draws : list (Z * Z) := [(0, 1); (0, 10); (0, 1); (0, 1); (0, 1)].
Definition short_game : list step :=
  [Step (Board 1 0 0 0) 1 (Board 0 1 0 0); Step (Board 2 1 0 0) 2 (Board 0 0 2 1);
   Step (Board 1 0 2 1) 0 (Board 1 1 2 0); Step (Board 1 1 2 1) 0 (Board 1 2 2 0)].

(** ** Printing

    [snprintf] with the conversions [%04x] and [%3u] that [name()] and
    [operator<<] use. *)

(** The digits of an [unsigned] in [base], the most significant first and
    without leading zero; [fuel] bounds their number (8 in base 16 and 10
    in base 10 for 32 bits). *)
Fixpoint digits (base : Z) (fuel : nat) (n : Z) : list Z :=
  match fuel with
  | O => []
  | S fuel =>
      (if n / base =? 0 then [] else digits base fuel (n / base)) ++ [n mod base]
  end.

Definition digit_char (d : Z) : ascii :=
  nth (Z.to_nat d) (list_ascii_of_string "0123456789abcdef") "?"%char.

(** A minimum field width: shorter texts are padded on the left. *)
Definition pad (width : nat) (c : ascii) (s : list ascii) : list ascii :=
  replicate (width - length s) c ++ s.

(** [%04x] and [%3u] applied to an [int] argument. *)
Definition printf_04x (n : Z) : list ascii :=
  pad 4 "0"%char (digit_char <$> digits 16 8 (wrap_unsigned n)).
Definition printf_3u (n : Z) : list ascii :=
  pad 3 " "%char (digit_char <$> digits 10 10 (wrap_unsigned n)).

(** [snprintf(buff, size, ...)] keeps at most [size - 1] characters. *)
Definition snprintf (size : nat) (s : list ascii) : string :=
  string_of_list_ascii (take (size - 1) s).

(** [name()], with [char buff[8]]. *)
Definition name (b : board) : string := snprintf 8 (printf_04x (operator_int b)).

(** [operator<<]: the four lines that are sent to the stream, each one
    followed by [std::endl]; the two rows go through [char buff[32]]. *)
Definition row_line (r0 r1 : Z) : string :=
  snprintf 32 ("|"%char :: printf_3u (tile_value r0) ++ printf_3u (tile_value r1) ++
               ["|"%char]).
Definition operator_shl (b : board) : list string :=
  ["+------+"%string; row_line (t00 b) (t01 b); row_line (t10 b) (t11 b);
   "+------+"%string].

(** The text of a cell by rank, and the name of a board by its cells. *)
Definition tile_text (r : Z) : string :=
  nth (Z.to_nat r)
    ["  0"; "  2"; "  4"; "  8"; " 16"; " 32"; " 64"; "128"; "256"; "512";
     "1024"; "2048"; "4096"; "8192"; "16384"; "32768"]%string ""%string.
Definition nibble_name (b : board) : string :=
  string_of_list_ascii (digit_char <$> cells b).

(** ** Board engine: lemmas *)

Lemma land_15 (x : Z) : Z.land x 15 = x mod 16.
Proof. exact (Z.land_ones x 4 ltac:(lia)). Qed.

Lemma shiftr_div (x n : Z) : 0 <= n -> Z.shiftr x n = x / 2 ^ n.
Proof. intros Hn. now apply Z.shiftr_div_pow2. Qed.

Lemma operator_assign_cells (v : Z) :
  operator_assign v =
  Board ((v / 4096) mod 16) ((v / 256) mod 16) ((v / 16) mod 16) (v mod 16).
Proof.
  unfold operator_assign.
  rewrite !land_15, !shiftr_div by lia.
  reflexivity.
Qed.

Lemma operator_assign_ok (v : Z) : board_ok (operator_assign v).
Proof.
  rewrite operator_assign_cells.
  unfold board_ok, rank_ok; cbn [t00 t01 t10 t11].
  repeat split; (apply Z.mod_pos_bound || (apply Z.lt_succ_r, Z.mod_pos_bound)); lia.
Qed.

Lemma board_eq (a b : board) :
  t00 a = t00 b -> t01 a = t01 b -> t10 a = t10 b -> t11 a = t11 b -> a = b.
Proof. destruct a, b; cbn; congruence. Qed.

(** On boards of nibbles the packed value identifies the board. *)
Lemma operator_int_inj (a b : board) :
  board_ok a -> board_ok b -> operator_int a = operator_int b -> a = b.
Proof.
  unfold board_ok, rank_ok, operator_int.
  intros (?&?&?&?) (?&?&?&?) He.
  apply board_eq; lia.
Qed.

Lemma wrap_unsigned_parity (z : Z) : wrap_unsigned z mod 2 = z mod 2.
Proof. unfold wrap_unsigned. change (2 ^ 32) with 4294967296. Z.div_mod_to_equations. lia. Qed.

Lemma to_signed_parity (z : Z) : to_signed z mod 2 = z mod 2.
Proof.
  unfold to_signed. pose proof (wrap_unsigned_parity z) as Hp.
  destruct (wrap_unsigned z <? 2 ^ 31); [exact Hp|].
  rewrite <- Hp. change (2 ^ 32) with 4294967296. Z.div_mod_to_equations. lia.
Qed.

Lemma tile_value_even (r : Z) : tile_value r mod 2 = 0.
Proof.
  unfold tile_value.
  rewrite <- (Z.land_ones _ 1) by lia.
  rewrite <- Z.land_assoc.
  change (Z.land 4294967294 (Z.ones 1)) with 0. apply Z.land_0_r.
Qed.

Lemma add_score_parity (score r : Z) : add_score score (tile_value r) mod 2 = score mod 2.
Proof.
  unfold add_score. rewrite to_signed_parity.
  pose proof (wrap_unsigned_parity score). pose proof (tile_value_even r).
  Z.div_mod_to_equations. lia.
Qed.

Lemma left_row_parity (row : Z * Z) (score : Z) :
  snd (left_row row score) mod 2 = score mod 2.
Proof.
  destruct row as [r0 r1]. unfold left_row.
  destruct (r0 =? 0); [reflexivity|].
  destruct (r0 =? r1); [apply add_score_parity | reflexivity].
Qed.

(** The board and the score that the loop of [left] leaves. *)
Lemma left_unfold (b : board) :
  left b =
  let r := left_row (t00 b, t01 b) 0 in
  let r' := left_row (t10 b, t11 b) (snd r) in
  let b' := Board (fst (fst r)) (snd (fst r)) (fst (fst r')) (snd (fst r')) in
  (if operator_int b' =? operator_int b then -1 else snd r', b').
Proof.
  unfold left.
  destruct (left_row (t00 b, t01 b) 0) as [[a0 a1] s].
  cbn [fst snd].
  destruct (left_row (t10 b, t11 b) s) as [[c0 c1] s'].
  reflexivity.
Qed.

Lemma left_illegal_iff (b : board) :
  fst (left b) = -1 <-> operator_int (snd (left b)) = operator_int b.
Proof.
  rewrite left_unfold. cbn zeta. cbn [fst snd].
  set (r := left_row (t00 b, t01 b) 0).
  set (r' := left_row (t10 b, t11 b) (snd r)).
  set (b' := Board _ _ _ _).
  destruct (Z.eqb_spec (operator_int b') (operator_int b)) as [He|Hne].
  - tauto.
  - split; [|tauto]. intros Hs. exfalso.
    pose proof (left_row_parity (t10 b, t11 b) (snd r)) as H1.
    pose proof (left_row_parity (t00 b, t01 b) 0) as H2.
    fold r in H2. fold r' in H1. rewrite Hs, H2 in H1. discriminate H1.
Qed.

Lemma rotate_1 (b : board) : rotate 1 b = mirror (transpose b).
Proof. reflexivity. Qed.

Lemma rotate_m1 (b : board) : rotate (-1) b = flip (transpose b).
Proof. reflexivity. Qed.

Ltac crush_rows :=
  unfold left_row;
  repeat match goal with
  | |- context [ ?x =? ?y ] => destruct (Z.eqb_spec x y)
  end;
  cbn [fst snd]; unfold operator_int, mirror, transpose, flip; cbn [t00 t01 t10 t11].

Lemma left_changes_encoding (b : board) :
  board_ok b ->
  let b' := snd (left b) in
  (operator_int b' = operator_int b <-> b' = b) /\
  (operator_int (mirror b') = operator_int (mirror b) <-> b' = b) /\
  (operator_int (rotate (-1) b') = operator_int (rotate (-1) b) <-> b' = b) /\
  (operator_int (rotate (-1) (mirror b')) = operator_int (rotate (-1) (mirror b)) <-> b' = b).
Proof.
  intros Hok b'.
  assert (Hcells : b' = b <-> t00 b' = t00 b /\ t01 b' = t01 b /\ t10 b' = t10 b /\ t11 b' = t11 b).
  { split; [intros ->; tauto | intros (?&?&?&?); now apply board_eq]. }
  rewrite !Hcells. clear Hcells.
  subst b'. rewrite left_unfold. cbn zeta. cbn [snd].
  rewrite !rotate_m1.
  destruct b as [a b c d]. unfold board_ok, rank_ok in Hok. cbn [t00 t01 t10 t11] in *.
  crush_rows; lia.
Qed.

Lemma left_fst (b : board) :
  fst (left b) =
  if operator_int (snd (left b)) =? operator_int b then -1 else left_score b.
Proof. rewrite left_unfold. reflexivity. Qed.

Lemma move_frame (opcode : Z) (b : board) :
  0 <= opcode <= 3 -> fst (move opcode b) = fst (left (frame opcode b)).
Proof.
  intros Hop.
  assert (opcode = 0 \/ opcode = 1 \/ opcode = 2 \/ opcode = 3) as [-> | [-> | [-> | ->]]] by lia;
    cbn [move frame]; unfold up, down, right;
    repeat match goal with |- context [ left ?x ] => destruct (left x) end; reflexivity.
Qed.

Lemma mirror_mirror (b : board) : mirror (mirror b) = b.
Proof. now destruct b. Qed.

Lemma rotate_m1_1 (b : board) : rotate (-1) (rotate 1 b) = b.
Proof. now destruct b. Qed.

Lemma mirror_ok (b : board) : board_ok b -> board_ok (mirror b).
Proof. unfold board_ok; cbn; tauto. Qed.

Lemma rotate_1_ok (b : board) : board_ok b -> board_ok (rotate 1 b).
Proof. unfold board_ok; cbn; tauto. Qed.

Lemma frame_ok (opcode : Z) (b : board) : board_ok b -> board_ok (frame opcode b).
Proof.
  intros Hok. destruct opcode as [|[[?|?|]|[?|?|]|]|?]; cbn [frame];
    auto using mirror_ok, rotate_1_ok.
Qed.

(** [move] undoes the change of frame on the board that [left] leaves. *)
Lemma move_changes_iff (opcode : Z) (b : board) :
  board_ok b -> 0 <= opcode <= 3 ->
  operator_int (snd (move opcode b)) = operator_int b <->
  snd (left (frame opcode b)) = frame opcode b.
Proof.
  intros Hok Hop.
  assert (opcode = 0 \/ opcode = 1 \/ opcode = 2 \/ opcode = 3) as [-> | [-> | [-> | ->]]] by lia;
    cbn [move frame]; unfold up, down, right.
  - pose proof (left_changes_encoding (mirror (rotate 1 b)) (mirror_ok _ (rotate_1_ok _ Hok)))
      as (_ & _ & _ & H).
    rewrite mirror_mirror, rotate_m1_1 in H.
    destruct (left (mirror (rotate 1 b))) as [s b']. exact H.
  - pose proof (left_changes_encoding (mirror b) (mirror_ok _ Hok)) as (_ & H & _).
    rewrite mirror_mirror in H.
    destruct (left (mirror b)) as [s b']. exact H.
  - pose proof (left_changes_encoding (rotate 1 b) (rotate_1_ok _ Hok)) as (_ & _ & H & _).
    rewrite rotate_m1_1 in H.
    destruct (left (rotate 1 b)) as [s b']. exact H.
  - pose proof (left_changes_encoding b Hok) as (H & _). exact H.
Qed.

(** C2. On a board of nibbles and for each of the four directions,
    [move] returns the sentinel [-1] exactly when the packed value of the
    board after the move equals the packed value before it; whenever the
    packed value changes the result is the score accumulated by the
    merges, so a move that changes the board with score 0 is legal and
    returns 0. *)
Theorem move_illegal_iff_unchanged (b : board) (opcode : Z) :
  board_ok b -> 0 <= opcode <= 3 ->
  (fst (move opcode b) = -1 <->
   operator_int (snd (move opcode b)) = operator_int b) /\
  (operator_int (snd (move opcode b)) <> operator_int b ->
   fst (move opcode b) = left_score (frame opcode b)) /\
  (operator_int (snd (move opcode b)) <> operator_int b ->
   left_score (frame opcode b) = 0 -> fst (move opcode b) = 0).
Proof.
  intros Hok Hop.
  pose proof (move_changes_iff opcode b Hok Hop) as Hch.
  pose proof (left_changes_encoding _ (frame_ok opcode b Hok)) as (Hl & _).
  cbn zeta in Hl.
  assert (Hfst : operator_int (snd (move opcode b)) <> operator_int b ->
                 fst (move opcode b) = left_score (frame opcode b)).
  { intros Hne. rewrite move_frame, left_fst by exact Hop.
    destruct (Z.eqb_spec (operator_int (snd (left (frame opcode b))))
                (operator_int (frame opcode b))) as [He|]; [|reflexivity].
    exfalso. apply Hne, Hch, Hl, He. }
  split; [|split].
  - rewrite move_frame, left_illegal_iff by exact Hop.
    rewrite Hch. exact Hl.
  - exact Hfst.
  - intros Hne Hz. rewrite Hfst by exact Hne. exact Hz.
Qed.

Lemma move_illegal_iff_unchanged_witness :
  (fst (move 3 (Board 0 1 0 0)) = -1 <->
   operator_int (snd (move 3 (Board 0 1 0 0))) = operator_int (Board 0 1 0 0)) /\
  fst (move 3 (Board 0 1 0 0)) = 0.
Proof.
  assert (Hok : board_ok (Board 0 1 0 0)) by (unfold board_ok, rank_ok; cbn; lia).
  assert (Hop : 0 <= 3 <= 3) by lia.
  destruct (move_illegal_iff_unchanged (Board 0 1 0 0) 3 Hok Hop) as (H1 & _ & H3).
  split; [exact H1 | apply H3; [vm_compute; discriminate | reflexivity]].
Defined.

(** C3 (as stated in the specification, refuted). A row of two empty
    cells is not turned into a rank-1 tile with reward 2. *)
Lemma empty_row_not_merged : left_row (0, 0) 0 <> ((1, 0), 2).
Proof. vm_compute. discriminate. Qed.

(** C3 (amended). A row whose first cell is empty takes the first branch
    of the row rule, before the equality test: the second cell slides
    into the first and the score is untouched. In particular a row of
    two empty cells stays empty and contributes nothing, and every move
    of the empty board is illegal and leaves it empty. *)
Theorem empty_row_unchanged (score r1 : Z) (opcode : Z) :
  left_row (0, r1) score = ((r1, 0), score) /\
  left_row (0, 0) score = ((0, 0), score) /\
  move opcode board_empty = (-1, board_empty).
Proof.
  repeat split.
  destruct opcode as [|[[?|?|]|[?|?|]|]|?]; reflexivity.
Qed.

Lemma tile_value_pow2 (k : Z) : 1 <= k <= 16 -> tile_value k = 2 ^ k.
Proof.
  intros Hk.
  assert (k = 1 \/ k = 2 \/ k = 3 \/ k = 4 \/ k = 5 \/ k = 6 \/ k = 7 \/ k = 8 \/
          k = 9 \/ k = 10 \/ k = 11 \/ k = 12 \/ k = 13 \/ k = 14 \/ k = 15 \/ k = 16)
    as Hcases by lia.
  repeat (destruct Hcases as [-> | Hcases]; [reflexivity|]).
  subst k. reflexivity.
Qed.

Lemma add_score_small (score u : Z) :
  0 <= score -> 0 <= u -> score + u < 2 ^ 31 -> add_score score u = score + u.
Proof.
  intros Hs Hu Hlt. unfold add_score, to_signed, wrap_unsigned.
  change (2 ^ 31) with 2147483648 in *. change (2 ^ 32) with 4294967296.
  rewrite (Z.mod_small score) by lia.
  rewrite (Z.mod_small (score + u)) by lia.
  destruct (Z.ltb_spec (score + u) 2147483648); lia.
Qed.

(** C4. A row holding twice the same nonzero rank [r] becomes
    [(r + 1, 0)] and adds exactly [2 ^ (r + 1)] to the score; [move] to
    the left on the board (1,1,0,0) returns 4 and leaves (2,0,0,0). *)
Theorem merge_reward (r score : Z) :
  1 <= r <= 15 -> 0 <= score <= 2 ^ 16 ->
  left_row (r, r) score = ((r + 1, 0), score + 2 ^ (r + 1)) /\
  left_row (r, r) 0 = ((r + 1, 0), 2 ^ (r + 1)) /\
  move 3 (Board 1 1 0 0) = (4, Board 2 0 0 0).
Proof.
  intros Hr Hs.
  assert (Hrow : forall s, 0 <= s <= 2 ^ 16 ->
            left_row (r, r) s = ((r + 1, 0), s + 2 ^ (r + 1))).
  { intros s Hs'. unfold left_row.
    destruct (Z.eqb_spec r 0); [lia|].
    rewrite Z.eqb_refl, tile_value_pow2 by lia.
    assert (0 < 2 ^ (r + 1) <= 2 ^ 16)
      by (split; [apply Z.pow_pos_nonneg | apply Z.pow_le_mono_r]; lia).
    rewrite add_score_small; [reflexivity| | |]; change (2 ^ 16) with 65536 in *;
      change (2 ^ 31) with 2147483648; lia. }
  split; [apply Hrow, Hs|].
  split; [apply (Hrow 0); change (2 ^ 16) with 65536; lia | reflexivity].
Qed.

Lemma merge_reward_witness :
  left_row (3, 3) 4 = ((4, 0), 20) /\ move 3 (Board 1 1 0 0) = (4, Board 2 0 0 0).
Proof.
  destruct (merge_reward 3 4) as (H & _ & H'); [lia | change (2 ^ 16) with 65536; lia |].
  split; [exact H | exact H'].
Defined.

(** C7. Packing and unpacking are inverse of each other between the
    16-bit values and the boards of nibbles. *)
Theorem operator_int_assign_roundtrip (v : Z) (b : board) :
  0 <= v < 65536 -> board_ok b ->
  operator_int (operator_assign v) = v /\
  board_ok (operator_assign v) /\
  operator_assign (operator_int b) = b /\
  0 <= operator_int b < 65536.
Proof.
  intros Hv Hb.
  assert (Hround : forall u, 0 <= u < 65536 -> operator_int (operator_assign u) = u).
  { intros u Hu. rewrite operator_assign_cells. unfold operator_int; cbn [t00 t01 t10 t11].
    Z.div_mod_to_equations. lia. }
  assert (Hrange : 0 <= operator_int b < 65536).
  { revert Hb. unfold board_ok, rank_ok, operator_int. lia. }
  repeat split; try apply operator_assign_ok; try lia; auto.
  apply operator_int_inj; auto using operator_assign_ok.
Qed.

Lemma operator_int_assign_roundtrip_witness :
  operator_int (operator_assign 4660) = 4660 /\
  operator_assign (operator_int (Board 1 2 3 4)) = Board 1 2 3 4.
Proof.
  assert (Hv : 0 <= 4660 < 65536) by lia.
  assert (Hb : board_ok (Board 1 2 3 4)) by (unfold board_ok, rank_ok; cbn; lia).
  destruct (operator_int_assign_roundtrip 4660 (Board 1 2 3 4) Hv Hb) as (H1 & _ & H2 & _).
  split; [exact H1 | exact H2].
Defined.

(** *** Symmetries permute the cells *)

Lemma transpose_cells (b : board) : cells (transpose b) ≡ₚ cells b.
Proof. unfold cells; cbn. do 1 constructor. apply perm_swap. Qed.

Lemma mirror_cells (b : board) : cells (mirror b) ≡ₚ cells b.
Proof.
  unfold cells; cbn. etransitivity; [apply perm_swap|].
  do 2 constructor. apply perm_swap.
Qed.

Lemma flip_cells (b : board) : cells (flip b) ≡ₚ cells b.
Proof.
  unfold cells; cbn.
  change ([t10 b; t11 b; t00 b; t01 b]) with ([t10 b; t11 b] ++ [t00 b; t01 b]).
  apply (Permutation_app_comm [t10 b; t11 b] [t00 b; t01 b]).
Qed.

Lemma rotate_cells (r : Z) (b : board) : cells (rotate r b) ≡ₚ cells b.
Proof.
  unfold rotate.
  destruct (Z.rem (Z.rem r 4 + 4) 4) as [|[[?|?|]|[?|?|]|]|?]; try reflexivity.
  - now rewrite flip_cells, transpose_cells.
  - now rewrite flip_cells, mirror_cells.
  - now rewrite mirror_cells, transpose_cells.
Qed.

Lemma isomorphic_cells (i : Z) (b : board) : cells (isomorphic i b) ≡ₚ cells b.
Proof.
  unfold isomorphic. cbn zeta. rewrite rotate_cells.
  destruct (4 <? _); [apply mirror_cells | reflexivity].
Qed.

(** C8. For each of the eight indices, [isomorphic] only permutes the
    cells: the ranks of the result, as a multiset, are those of the
    original board. *)
Theorem isomorphic_multiset (b : board) (i : Z) :
  0 <= i < 8 -> cells (isomorphic i b) ≡ₚ cells b.
Proof. intros _. apply isomorphic_cells. Qed.

Lemma isomorphic_multiset_witness :
  cells (isomorphic 5 (Board 1 2 3 4)) ≡ₚ cells (Board 1 2 3 4).
Proof. apply isomorphic_multiset. lia. Defined.

(** *** The weight table *)

Lemma V_index_bounds (b : board) : table_ok b -> 0 <= V_index b <= 1295.
Proof. unfold table_ok, digit_ok, V_index. lia. Qed.

Lemma V_in_bounds (weight : list float) (b : board) :
  length weight = weight_size -> table_ok b ->
  V weight b = weight !! Z.to_nat (V_index b) /\ is_Some (V weight b).
Proof.
  intros Hlen Hok. pose proof (V_index_bounds b Hok) as Hb. unfold V.
  destruct (Z.ltb_spec (V_index b) 0); [lia|].
  split; [reflexivity|]. apply lookup_lt_is_Some. rewrite Hlen. unfold weight_size. lia.
Qed.

Lemma V_add_in_bounds (weight : list float) (b : board) (upd : float) :
  length weight = weight_size -> table_ok b ->
  exists weight', V_add weight b upd = Some weight' /\ length weight' = weight_size.
Proof.
  intros Hlen Hok. destruct (V_in_bounds weight b Hlen Hok) as [_ [u Hu]].
  unfold V_add. rewrite Hu. cbn.
  eexists; split; [reflexivity|]. now rewrite length_insert.
Qed.

(** C9. When the four ranks of a board are at most 5, the index
    [r00*216 + r01*36 + r10*6 + r11] lies in [0, 1295], so that reading
    and updating the 1296-entry table at that board succeed. *)
Theorem V_access_in_bounds (weight : list float) (b : board) (upd : float) :
  length weight = weight_size -> table_ok b ->
  V_index b = t00 b * 216 + t01 b * 36 + t10 b * 6 + t11 b /\
  0 <= V_index b <= 1295 /\
  (Z.to_nat (V_index b) < length weight)%nat /\
  is_Some (V weight b) /\
  exists weight', V_add weight b upd = Some weight' /\ length weight' = weight_size.
Proof.
  intros Hlen Hok.
  pose proof (V_index_bounds b Hok) as Hb.
  split; [unfold V_index; lia|].
  split; [exact Hb|].
  split; [rewrite Hlen; unfold weight_size; lia|].
  split; [now apply V_in_bounds | now apply V_add_in_bounds].
Qed.

Lemma V_access_in_bounds_witness :
  0 <= V_index (Board 5 5 5 5) <= 1295 /\ is_Some (V weight_init (Board 5 5 5 5)).
Proof.
  assert (Hlen : length weight_init = weight_size) by reflexivity.
  assert (Hok : table_ok (Board 5 5 5 5)) by (unfold table_ok, digit_ok; cbn; lia).
  destruct (V_access_in_bounds weight_init (Board 5 5 5 5) fzero Hlen Hok) as (_ & H1 & _ & H2 & _).
  split; [exact H1 | exact H2].
Defined.

(** C10. An opcode other than 0, 1, 2, 3 makes [move] return [-1] and
    leaves the board as it was. *)
Theorem move_bad_opcode (b : board) (opcode : Z) :
  ~ (0 <= opcode <= 3) -> move opcode b = (-1, b).
Proof.
  intros Hop. destruct opcode as [|[[?|?|]|[?|?|]|]|?]; try reflexivity; lia.
Qed.

Lemma move_bad_opcode_witness : move 4 (Board 1 1 0 0) = (-1, Board 1 1 0 0).
Proof. apply move_bad_opcode. lia. Defined.

(** *** The order of binary32 *)

Ltac order_cases :=
  repeat match goal with
  | |- context [ (?a ?= ?b)%Z ] => destruct (Z.compare_spec a b)
  | |- context [ Pos.compare_cont Eq ?a ?b ] =>
      change (Pos.compare_cont Eq a b) with (Pos.compare a b);
      destruct (Pos.compare_spec a b)
  end;
  cbn; try discriminate; try reflexivity; intros; try lia.

Lemma fgt_irrefl (x : float) : fgt x x = false.
Proof.
  unfold fgt, SFltb, SFcompare.
  destruct x as [[]|[]| |[] m e]; try reflexivity; order_cases.
Qed.

Lemma fgt_not_nan (x y : float) : fgt x y = true -> is_nan x = false /\ is_nan y = false.
Proof.
  unfold fgt, SFltb, SFcompare.
  destruct x as [[]|[]| |[] m e], y as [[]|[]| |[] m' e']; cbn; intros H; try discriminate H; auto.
Qed.

Lemma fgt_trans (x y z : float) :
  fgt x y = true -> fgt y z = true -> fgt x z = true.
Proof.
  unfold fgt, SFltb, SFcompare.
  destruct x as [[]|[]| |[] m1 e1], y as [[]|[]| |[] m2 e2], z as [[]|[]| |[] m3 e3];
    cbn; try discriminate; try reflexivity; order_cases.
Qed.

Lemma fgt_neg_trans (x y z : float) :
  fgt z y = true -> fgt x y = false -> is_nan x = false -> fgt z x = true.
Proof.
  unfold fgt, SFltb, SFcompare.
  destruct x as [[]|[]| |[] m1 e1], y as [[]|[]| |[] m2 e2], z as [[]|[]| |[] m3 e3];
    cbn; try discriminate; try reflexivity; order_cases.
Qed.

(** *** Signs in binary32 *)

Lemma binary_round_aux_sign (mx ex : Z) (lx : location) :
  sign_clear (binary_round_aux prec32 emax32 false mx ex lx) = true.
Proof.
  unfold binary_round_aux.
  destruct (shr_fexp prec32 emax32 mx ex lx) as [mrs e].
  destruct (shr_fexp prec32 emax32 _ e loc_Exact) as [mrs' e'].
  destruct (shr_m mrs'); [reflexivity| |reflexivity].
  destruct (e' <=? emax32 - prec32); reflexivity.
Qed.

Lemma float_of_int_sign (r : Z) : 0 <= r -> sign_clear (float_of_int r) = true.
Proof.
  intros Hr. unfold float_of_int, binary_normalize.
  destruct r as [|p|p]; [reflexivity| |lia].
  unfold binary_round. destruct (shl_align _ _ _). apply binary_round_aux_sign.
Qed.

Lemma fsub_zero (x : float) : fsub x fzero = x.
Proof. destruct x as [[]|[]| |[] m e]; reflexivity. Qed.

Lemma fadd_zero_r (x : float) : sign_clear x = true -> fadd x fzero = x.
Proof. destruct x as [[]|[]| |[] m e]; try reflexivity; discriminate. Qed.

Lemma fadd_zero_l (x : float) : sign_clear x = true -> fadd fzero x = x.
Proof. destruct x as [[]|[]| |[] m e]; try reflexivity; discriminate. Qed.

Lemma fmul_alpha_sign (x : float) :
  sign_clear x = true -> sign_clear (fmul alpha x) = true.
Proof.
  destruct x as [[]|[]| |[] m e]; try reflexivity; try discriminate.
  intros _. unfold fmul, alpha, SFmul. apply binary_round_aux_sign.
Qed.

Lemma shr_1_nonneg (mrs : shr_record) : 0 <= shr_m mrs -> 0 <= shr_m (shr_1 mrs).
Proof.
  destruct mrs as [m r s]. cbn [shr_m]. intros Hm.
  destruct m as [|[p|p|]|p]; cbn; lia.
Qed.

Lemma iter_pos_shr_1_nonneg (p : positive) :
  forall mrs, 0 <= shr_m mrs -> 0 <= shr_m (SpecFloat.iter_pos shr_1 p mrs).
Proof.
  induction p as [p IH|p IH|]; intros mrs Hm; cbn [SpecFloat.iter_pos].
  - apply IH, IH, shr_1_nonneg, Hm.
  - apply IH, IH, Hm.
  - apply shr_1_nonneg, Hm.
Qed.

Lemma shr_fexp_nonneg (m e : Z) (l : location) :
  0 <= m -> 0 <= shr_m (fst (shr_fexp prec32 emax32 m e l)).
Proof.
  intros Hm. unfold shr_fexp, shr.
  assert (Hrec : 0 <= shr_m (shr_record_of_loc m l))
    by (destruct l as [|[]]; exact Hm).
  destruct (fexp _ _ _ - e) as [|p|p]; cbn [fst]; auto.
  now apply iter_pos_shr_1_nonneg.
Qed.

Lemma round_nearest_even_nonneg (mx : Z) (lx : location) :
  0 <= mx -> 0 <= round_nearest_even mx lx.
Proof.
  intros Hm. unfold round_nearest_even.
  destruct lx as [|[]]; try lia. destruct (Z.even mx); lia.
Qed.

Lemma binary_round_aux_not_nan (s : bool) (mx ex : Z) (lx : location) :
  0 <= mx -> is_nan (binary_round_aux prec32 emax32 s mx ex lx) = false.
Proof.
  intros Hm. unfold binary_round_aux.
  pose proof (shr_fexp_nonneg mx ex lx Hm) as H1.
  destruct (shr_fexp prec32 emax32 mx ex lx) as [mrs e]. cbn [fst] in H1.
  pose proof (shr_fexp_nonneg _ e loc_Exact
                (round_nearest_even_nonneg _ (loc_of_shr_record mrs) H1)) as H2.
  destruct (shr_fexp prec32 emax32 _ e loc_Exact) as [mrs' e']. cbn [fst] in H2.
  destruct (shr_m mrs'); [reflexivity| |lia].
  destruct (e' <=? emax32 - prec32); reflexivity.
Qed.

Lemma binary_round_nonneg (m : positive) (e : Z) :
  nonneg (binary_round prec32 emax32 false m e) = true.
Proof.
  unfold nonneg, binary_round. destruct (shl_align _ _ _) as [mz ez].
  rewrite binary_round_aux_sign, binary_round_aux_not_nan by lia. reflexivity.
Qed.

Lemma float_of_int_nonneg (r : Z) : 0 <= r -> nonneg (float_of_int r) = true.
Proof.
  intros Hr. unfold float_of_int, binary_normalize.
  destruct r as [|p|p]; [reflexivity | apply binary_round_nonneg | lia].
Qed.

Lemma fadd_nonneg (x y : float) :
  nonneg x = true -> nonneg y = true -> nonneg (fadd x y) = true.
Proof.
  destruct x as [[]|[]| |[] mx ex], y as [[]|[]| |[] my ey];
    try discriminate; try reflexivity.
  intros _ _. unfold fadd, SFadd. cbn [cond_Zopp].
  apply binary_round_nonneg.
Qed.

Lemma nonneg_above_sentinel (x : float) :
  nonneg x = true -> fgt x (fneg FLT_MAX) = true.
Proof. destruct x as [[]|[]| |[] m e]; try discriminate; reflexivity. Qed.

(** From an entry [+0] and towards a target that is not negative, one
    update leaves [alpha * target]. *)
Lemma first_update_value (target : float) :
  sign_clear target = true ->
  fadd fzero (fmul alpha (fsub target fzero)) = fmul alpha target.
Proof.
  intros Hs. rewrite fsub_zero. apply fadd_zero_l, fmul_alpha_sign, Hs.
Qed.

(** *** Training the variants of a board *)

Lemma table_ok_cells (b : board) : table_ok b <-> Forall digit_ok (cells b).
Proof.
  unfold table_ok, cells. rewrite !Forall_cons, Forall_nil. tauto.
Qed.

Lemma isomorphic_table_ok (i : Z) (b : board) :
  table_ok b -> table_ok (isomorphic i b).
Proof.
  rewrite !table_ok_cells. intros H.
  now rewrite (isomorphic_cells i b).
Qed.

Lemma table_ok_board_ok (b : board) : table_ok b -> board_ok b.
Proof. unfold table_ok, digit_ok, board_ok, rank_ok. lia. Qed.

Lemma V_index_inj (a b : board) :
  table_ok a -> table_ok b ->
  Z.to_nat (V_index a) = Z.to_nat (V_index b) -> a = b.
Proof.
  intros Ha Hb He.
  pose proof (V_index_bounds a Ha). pose proof (V_index_bounds b Hb).
  assert (He' : V_index a = V_index b) by lia. clear He.
  revert Ha Hb He'. unfold table_ok, digit_ok, V_index.
  intros (?&?&?&?) (?&?&?&?) He. apply board_eq; lia.
Qed.

Lemma V_add_lookup (weight weight' : list float) (b : board) (upd : float) :
  length weight = weight_size -> table_ok b ->
  V_add weight b upd = Some weight' ->
  length weight' = weight_size /\
  forall k, weight' !! k =
    if decide (k = Z.to_nat (V_index b))
    then (fun u => fadd u upd) <$> (weight !! k) else weight !! k.
Proof.
  intros Hlen Hok. unfold V_add.
  destruct (V_in_bounds weight b Hlen Hok) as [HV [u Hu]].
  rewrite Hu. cbn. intros [= <-].
  split; [now rewrite length_insert|].
  intros k. rewrite HV in Hu. destruct (decide (k = Z.to_nat (V_index b))) as [->|Hne].
  - rewrite Hu. cbn. apply list_lookup_insert_eq. now apply lookup_lt_Some in Hu.
  - now apply list_lookup_insert_ne.
Qed.

Section train_facts.
Variable b : board.
Variable upd : float.
Hypothesis b_ok : table_ok b.

(** The loop invariant: [done] are the boards trained so far. *)
Lemma train_loop_spec (ks : list nat) :
  forall (done : list board) (weight : list float),
  Forall table_ok done ->
  length weight = weight_size ->
  exists weight',
    train_loop b upd ks (operator_int <$> done) weight = Some weight' /\
    length weight' = weight_size /\
    forall k,
      ((exists i, i ∈ ks /\ (variant b i ∉ done) /\ k = Z.to_nat (V_index (variant b i))) ->
       weight' !! k = (fun u => fadd u upd) <$> (weight !! k)) /\
      (~ (exists i, i ∈ ks /\ (variant b i ∉ done) /\ k = Z.to_nat (V_index (variant b i))) ->
       weight' !! k = weight !! k).
Proof.
  induction ks as [|i ks IH]; intros done weight Hdone Hlen.
  - exists weight. split; [reflexivity|]. split; [exact Hlen|].
    intros k. split; [|reflexivity].
    intros (i & Hi & _). now apply elem_of_nil in Hi.
  - cbn [train_loop]. fold (variant b i).
    assert (Hiso : table_ok (variant b i)) by now apply isomorphic_table_ok.
    assert (Hmem : operator_int (variant b i) ∈ operator_int <$> done <-> variant b i ∈ done).
    { rewrite list_elem_of_fmap. split.
      - intros (d & He & Hd).
        assert (variant b i = d) as ->; [|exact Hd].
        apply operator_int_inj; auto using table_ok_board_ok.
        apply table_ok_board_ok. rewrite Forall_forall in Hdone. auto.
      - intros Hd. now exists (variant b i). }
    case_bool_decide as Hin.
    + apply Hmem in Hin.
      destruct (IH done weight Hdone Hlen) as (w' & Hrun & Hlen' & Hk).
      exists w'. split; [exact Hrun|]. split; [exact Hlen'|].
      intros k. destruct (Hk k) as [Hyes Hno]. split.
      * intros (j & Hj & Hnd & ->). apply Hyes. exists j.
        apply elem_of_cons in Hj as [-> | Hj]; [contradiction | auto].
      * intros Hnot. apply Hno. intros (j & Hj & Hnd & ->). apply Hnot.
        exists j. rewrite elem_of_cons. auto.
    + rewrite Hmem in Hin.
      destruct (V_add_in_bounds weight (variant b i) upd Hlen Hiso)
        as (w1 & Hadd & Hlen1).
      rewrite Hadd. cbn [mbind option_bind].
      destruct (V_add_lookup _ _ _ _ Hlen Hiso Hadd) as [_ Hw1].
      assert (Hdone' : Forall table_ok (done ++ [variant b i]))
        by (apply Forall_app; split; [exact Hdone | now constructor]).
      destruct (IH (done ++ [variant b i]) w1 Hdone' Hlen1) as (w' & Hrun & Hlen' & Hk).
      rewrite fmap_app in Hrun. cbn [fmap list_fmap] in Hrun.
      exists w'. split; [exact Hrun|]. split; [exact Hlen'|].
      intros k. destruct (Hk k) as [Hyes Hno]. rewrite Hw1 in Hyes, Hno.
      destruct (decide (k = Z.to_nat (V_index (variant b i)))) as [->|Hne].
      * split; [intros _ | intros Hnot; exfalso; apply Hnot; exists i;
                             rewrite elem_of_cons; auto].
        apply Hno. intros (j & Hj & Hnd & He). apply Hnd.
        apply V_index_inj in He; [|exact Hiso | apply isomorphic_table_ok, b_ok].
        rewrite <- He, elem_of_app, list_elem_of_singleton. now right.
      * split.
        -- intros (j & Hj & Hnd & ->). apply Hyes. exists j.
           apply elem_of_cons in Hj as [-> | Hj]; [contradiction|].
           split; [exact Hj|]. split; [|reflexivity].
           rewrite elem_of_app, list_elem_of_singleton. intros [Hd | He]; [auto|].
           apply Hne. now rewrite He.
        -- intros Hnot. apply Hno. intros (j & Hj & Hnd & ->). apply Hnot.
           exists j. rewrite elem_of_cons. split; [auto|]. split; [|reflexivity].
           intros Hd. apply Hnd. rewrite elem_of_app. auto.
Qed.
End train_facts.

(** [train_isomorphic] adds [upd] once at the position of every variant
    and nowhere else. *)
Lemma train_isomorphic_spec (weight : list float) (b : board) (upd : float) :
  length weight = weight_size -> table_ok b ->
  exists weight',
    train_isomorphic weight b upd = Some weight' /\
    length weight' = weight_size /\
    forall k,
      (variant_index b k -> weight' !! k = (fun u => fadd u upd) <$> (weight !! k)) /\
      (~ variant_index b k -> weight' !! k = weight !! k).
Proof.
  intros Hlen Hok.
  destruct (train_loop_spec b upd Hok (seq 0 isomorphic_count) [] weight)
    as (w' & Hrun & Hlen' & Hk); [constructor | exact Hlen |].
  exists w'. split; [exact Hrun|]. split; [exact Hlen'|].
  assert (Heq : forall k,
    (exists i, i ∈ seq 0 isomorphic_count /\ (variant b i ∉ []) /\
               k = Z.to_nat (V_index (variant b i))) <-> variant_index b k).
  { intros k. unfold variant_index. split.
    - intros (i & Hi & _ & ->). exists i. apply elem_of_seq in Hi. split; [lia | reflexivity].
    - intros (i & Hi & ->). exists i. rewrite elem_of_seq.
      split; [lia|]. split; [apply not_elem_of_nil | reflexivity]. }
  intros k. destruct (Hk k) as [Hyes Hno]. rewrite Heq in Hyes, Hno. auto.
Qed.

(** *** The evaluation loop *)

Lemma frontier_keep {A : Type} (f : nat -> A) (init : list A) (k : nat) :
  init !! k = Some (f k) ->
  (f <$> seq 0 k) ++ drop k init = (f <$> seq 0 (S k)) ++ drop (S k) init.
Proof.
  intros Hk. rewrite seq_S, fmap_app, <- app_assoc. cbn.
  now rewrite (drop_S _ _ _ Hk).
Qed.

Lemma frontier_insert {A : Type} (f : nat -> A) (init : list A) (k : nat) :
  (k < length init)%nat ->
  <[k := f k]> ((f <$> seq 0 k) ++ drop k init) =
  (f <$> seq 0 (S k)) ++ drop (S k) init.
Proof.
  intros Hk. destruct (lookup_lt_is_Some_2 init k Hk) as [y Hy].
  rewrite (drop_S _ _ _ Hy), seq_S, fmap_app, <- app_assoc. cbn.
  rewrite insert_app_r_alt by (rewrite length_fmap, length_seq; lia).
  rewrite length_fmap, length_seq, Nat.sub_diag. reflexivity.
Qed.

Lemma frontier_lookup_done {A : Type} (f : nat -> A) (init : list A) (k x : nat) :
  (x < k)%nat -> ((f <$> seq 0 k) ++ drop k init) !! x = Some (f x).
Proof.
  intros Hx. rewrite lookup_app_l by (rewrite length_fmap, length_seq; lia).
  rewrite list_lookup_fmap, lookup_seq_lt by lia. reflexivity.
Qed.

Lemma frontier_lookup_next {A : Type} (f : nat -> A) (init : list A) (k : nat) :
  ((f <$> seq 0 k) ++ drop k init) !! k = init !! k.
Proof.
  rewrite lookup_app_r by (rewrite length_fmap, length_seq; lia).
  rewrite length_fmap, length_seq, Nat.sub_diag, lookup_drop. f_equal. lia.
Qed.

Lemma select_le (weight : list float) (b : board) (k : nat) :
  (select weight b k <= Nat.pred k)%nat.
Proof.
  induction k as [|k IH]; [reflexivity|]. cbn [select Nat.pred].
  destruct (_ && _); lia.
Qed.

Section evaluate_facts.
Variable weight : list float.
Variable b : board.
Hypothesis read_ok :
  forall op, (op < 4)%nat -> legal b op = true -> is_Some (V weight (afterstate b op)).

Lemma evaluate_op_step (k : nat) :
  (k < 4)%nat ->
  evaluate_op weight (scored_at weight b k) k = Some (scored_at weight b (S k)).
Proof.
  intros Hk. unfold evaluate_op, scored_at. cbn [ev_a ev_r ev_v ev_x].
  rewrite frontier_lookup_next.
  assert (Hb : [b; b; b; b] !! k = Some b)
    by (destruct k as [|[|[|[|]]]]; try reflexivity; lia).
  rewrite Hb. cbn [mbind option_bind].
  pose proof (eq_refl : reward b k = fst (move (Z.of_nat k) b)) as Hr.
  pose proof (eq_refl : afterstate b k = snd (move (Z.of_nat k) b)) as Ha.
  pose proof (eq_refl : legal b k = negb (reward b k =? -1)) as Hl.
  destruct (move (Z.of_nat k) b) as [rw b']. cbn [fst snd] in Hr, Ha.
  rewrite <- Hr, <- Ha.
  rewrite (frontier_insert (afterstate b) [b; b; b; b] k) by (cbn; lia).
  rewrite (frontier_insert (reward b) r_init k) by (cbn; lia).
  destruct (Z.eqb_spec (reward b k) (-1)) as [Hill | Hleg]; cbn [negb] in Hl.
  - (* illegal: [v] and [x] are left alone *)
    f_equal. unfold scored_at. f_equal.
    + apply frontier_keep. unfold v_entry. rewrite Hl.
      destruct k as [|[|[|[|]]]]; try reflexivity; lia.
    + cbn [select]. now rewrite Hl.
  - destruct (read_ok k Hk Hl) as [u Hu]. rewrite Hu. cbn [mbind option_bind].
    assert (Hv : fadd (float_of_int (reward b k)) u = v_entry weight b k).
    { unfold v_entry, candidate. rewrite Hl, Hu. reflexivity. }
    rewrite Hv.
    rewrite (frontier_insert (v_entry weight b) v_init k) by (cbn; lia).
    rewrite (frontier_lookup_done _ _ (S k) k) by lia. cbn [mbind option_bind].
    rewrite frontier_lookup_done by (pose proof (select_le weight b k); lia).
    cbn [mbind option_bind select]. rewrite Hl. reflexivity.
Qed.

Lemma evaluate_scored : evaluate weight b = Some (scored_at weight b 4).
Proof.
  unfold evaluate. cbn [seq evaluate_loop].
  change (scored_init b) with (scored_at weight b 0).
  do 4 (rewrite evaluate_op_step by lia; cbn [mbind option_bind]). reflexivity.
Qed.
End evaluate_facts.

(** *** Properties of the selected direction *)

Section selection_facts.
Variable weight : list float.
Variable b : board.
Hypothesis above_sentinel :
  forall op, (op < 4)%nat -> legal b op = true ->
  fgt (v_entry weight b op) (fneg FLT_MAX) = true.

Lemma v_entry_sentinel : legal b 0 = false -> v_entry weight b 0 = fneg FLT_MAX.
Proof. intros Hl. unfold v_entry. now rewrite Hl. Qed.

Lemma select_none (k : nat) :
  (forall op, (op < k)%nat -> legal b op = false) -> select weight b k = 0%nat.
Proof.
  induction k as [|k IH]; intros Hno; [reflexivity|].
  cbn [select]. rewrite (Hno k) by lia. cbn [andb]. apply IH. intros; apply Hno; lia.
Qed.

Lemma select_cases (k : nat) :
  (k <= 4)%nat ->
  (select weight b k = 0%nat /\ forall op, (op < k)%nat -> legal b op = false) \/
  legal b (select weight b k) = true.
Proof.
  induction k as [|k IH]; intros Hk; [left; split; [reflexivity | lia]|].
  cbn [select].
  destruct (legal b k) eqn:Hlk; cbn [andb].
  - right. destruct (fgt _ _) eqn:Hgt; [exact Hlk|].
    destruct IH as [[Hsel Hnone] | Hleg]; [lia | | exact Hleg].
    rewrite Hsel in Hgt |- *.
    destruct k as [|k']; [exact Hlk|].
    rewrite v_entry_sentinel in Hgt by (apply Hnone; lia).
    rewrite above_sentinel in Hgt by (lia || exact Hlk). discriminate.
  - destruct IH as [[Hsel Hnone] | Hleg]; [lia | left | right; exact Hleg].
    split; [exact Hsel|]. intros op Hop.
    destruct (decide (op = k)) as [->|]; [exact Hlk | apply Hnone; lia].
Qed.

Lemma select_legal (k : nat) :
  (k <= 4)%nat ->
  (exists op, (op < k)%nat /\ legal b op = true) ->
  legal b (select weight b k) = true.
Proof.
  intros Hk (op & Hop & Hl).
  destruct (select_cases k Hk) as [[_ Hnone] | Hleg]; [|exact Hleg].
  rewrite Hnone in Hl by exact Hop. discriminate.
Qed.

Lemma v_entry_not_nan (op : nat) :
  (op < 4)%nat -> legal b op = true -> is_nan (v_entry weight b op) = false.
Proof. intros Hop Hl. exact (proj1 (fgt_not_nan _ _ (above_sentinel op Hop Hl))). Qed.

(** No legal direction scanned so far beats the selected one. *)
Lemma select_greatest (k : nat) :
  forall op, (op < k)%nat -> legal b op = true ->
  fgt (v_entry weight b op) (v_entry weight b (select weight b k)) = false.
Proof.
  induction k as [|k IH]; intros op Hop Hl; [lia|].
  cbn [select].
  destruct (legal b k) eqn:Hlk; cbn [andb].
  - destruct (fgt (v_entry weight b k) _) eqn:Hgt.
    + destruct (decide (op = k)) as [->|Hne]; [apply fgt_irrefl|].
      destruct (fgt (v_entry weight b op) (v_entry weight b k)) eqn:Hop'; [|reflexivity].
      rewrite <- (IH op) by (lia || exact Hl).
      symmetry. apply (fgt_trans _ _ _ Hop' Hgt).
    + destruct (decide (op = k)) as [->|Hne]; [exact Hgt | apply IH; [lia | exact Hl]].
  - apply IH; [|exact Hl]. destruct (decide (op = k)) as [->|]; [congruence | lia].
Qed.

(** The selected direction strictly beats every legal direction
    before it: ties keep the lowest opcode. *)
Lemma select_first (k : nat) :
  (k <= 4)%nat ->
  forall op, (op < select weight b k)%nat -> legal b op = true ->
  fgt (v_entry weight b (select weight b k)) (v_entry weight b op) = true.
Proof.
  induction k as [|k IH]; intros Hk op Hop Hl; [cbn in Hop; lia|].
  cbn [select] in Hop |- *.
  destruct (legal b k) eqn:Hlk; cbn [andb] in Hop |- *.
  - destruct (fgt (v_entry weight b k) _) eqn:Hgt.
    + apply (fgt_neg_trans _ _ _ Hgt).
      * apply select_greatest; [lia | exact Hl].
      * apply v_entry_not_nan; [lia | exact Hl].
    + apply IH; [lia | exact Hop | exact Hl].
  - apply IH; [lia | exact Hop | exact Hl].
Qed.
End selection_facts.

Lemma scored_at_lookup (weight : list float) (b : board) (op : nat) :
  (op < 4)%nat ->
  ev_r (scored_at weight b 4) !! op = Some (reward b op) /\
  ev_a (scored_at weight b 4) !! op = Some (afterstate b op) /\
  ev_v (scored_at weight b 4) !! op = Some (v_entry weight b op).
Proof.
  intros Hop. unfold scored_at. cbn [ev_r ev_a ev_v].
  now rewrite !frontier_lookup_done by exact Hop.
Qed.

Lemma v_entry_candidate (weight : list float) (b : board) (op : nat) :
  legal b op = true -> is_Some (V weight (afterstate b op)) ->
  candidate weight b op = Some (v_entry weight b op).
Proof.
  intros Hl [u Hu]. unfold v_entry, candidate. rewrite Hl, Hu. reflexivity.
Qed.

Lemma table_reads (weight : list float) (b : board) :
  length weight = weight_size ->
  (forall op, (op < 4)%nat -> legal b op = true -> table_ok (afterstate b op)) ->
  forall op, (op < 4)%nat -> legal b op = true -> is_Some (V weight (afterstate b op)).
Proof. intros Hlen Hok op Hop Hl. apply V_in_bounds; auto. Qed.

(** The selection, whatever the table holds: either direction 0 is
    illegal and still selected, no legal direction scanned so far having
    compared above the sentinel, or the selected direction is legal. *)
Lemma select_sentinel_cases (weight : list float) (b : board) (k : nat) :
  (select weight b k = 0%nat /\ legal b 0 = false /\
   forall op, (op < k)%nat -> legal b op = true ->
     fgt (v_entry weight b op) (fneg FLT_MAX) = false) \/
  (legal b (select weight b k) = true /\
   (legal b 0 = true \/
    exists op, (op < k)%nat /\ legal b op = true /\
      fgt (v_entry weight b op) (fneg FLT_MAX) = true)).
Proof.
  induction k as [|k IH].
  - cbn [select]. destruct (legal b 0) eqn:H0; [right; auto | left].
    split; [reflexivity|]. split; [reflexivity|]. intros; lia.
  - cbn [select]. destruct IH as [(Hsel & H0 & Hnone) | (Hleg & Hwhy)].
    + rewrite Hsel, (v_entry_sentinel weight b H0).
      destruct (legal b k) eqn:Hlk; cbn [andb].
      * destruct (fgt (v_entry weight b k) (fneg FLT_MAX)) eqn:Hgt.
        -- right. split; [exact Hlk|]. right. exists k. auto.
        -- left. split; [reflexivity|]. split; [exact H0|]. intros op Hop Hl.
           destruct (decide (op = k)) as [->|]; [exact Hgt | apply Hnone; [lia | exact Hl]].
      * left. split; [reflexivity|]. split; [exact H0|]. intros op Hop Hl.
        destruct (decide (op = k)) as [->|]; [congruence | apply Hnone; [lia | exact Hl]].
    + right.
      assert (Hwhy' : legal b 0 = true \/
                exists op, (op < S k)%nat /\ legal b op = true /\
                  fgt (v_entry weight b op) (fneg FLT_MAX) = true)
        by (destruct Hwhy as [? | (op & ? & ?)];
            [left; assumption | right; exists op; split; [lia | assumption]]).
      destruct (legal b k) eqn:Hlk; cbn [andb]; [destruct (fgt _ _)|]; split; assumption.
Qed.

(** The selected direction strictly beats every legal direction before
    it whose candidate is a number. *)
Lemma select_first_known (weight : list float) (b : board) (k : nat) :
  forall op, (op < select weight b k)%nat -> legal b op = true ->
  is_nan (v_entry weight b op) = false ->
  fgt (v_entry weight b (select weight b k)) (v_entry weight b op) = true.
Proof.
  induction k as [|k IH]; intros op Hop Hl Hn; [cbn in Hop; lia|].
  cbn [select] in Hop |- *.
  destruct (legal b k) eqn:Hlk; cbn [andb] in Hop |- *.
  - destruct (fgt (v_entry weight b k) _) eqn:Hgt.
    + apply (fgt_neg_trans _ _ _ Hgt); [|exact Hn].
      apply select_greatest; [lia | exact Hl].
    + apply IH; assumption.
  - apply IH; assumption.
Qed.

(** C5 (as stated in the specification, refuted). On a table whose
    entries are all NaN, and on one whose entries are all [-FLT_MAX], the
    before-state (1,0,0,0) has two legal directions, Right and Down, and
    the evaluator selects direction 0, Up, which is illegal: no candidate
    compares above the [-FLT_MAX] that [v[0]] starts with. *)
Lemma illegal_direction_selected :
  ev_x <$> evaluate (weight_all S754_nan) (Board 1 0 0 0) = Some 0%nat /\
  ev_x <$> evaluate (weight_all (fneg FLT_MAX)) (Board 1 0 0 0) = Some 0%nat /\
  legal (Board 1 0 0 0) <$> seq 0 4 = [false; true; true; false].
Proof. vm_compute. repeat split; reflexivity. Qed.

(** C5 (amended). When the legal afterstates index the table, the
    evaluator gives every legal direction the candidate value
    [reward + V(afterstate)], scans Up, Right, Down, Left in that order
    and replaces the selected direction only by one whose candidate
    compares strictly greater: no legal direction has a candidate
    strictly greater than the selected value [v[x]], and [v[x]] is
    strictly greater than the candidate of every legal direction before
    [x] that is not a NaN, so that ties keep the lowest opcode. The value
    of an illegal direction 0 is the finite [-FLT_MAX]: the selected
    direction is legal exactly when direction 0 is legal or some legal
    direction has a candidate that compares above [-FLT_MAX]; otherwise
    the illegal direction 0 stays selected. In particular, when every
    legal candidate compares above [-FLT_MAX], an illegal direction is
    selected only if all four directions are illegal; with none legal,
    the selection stays at opcode 0. *)
Theorem action_selection (weight : list float) (b : board) :
  length weight = weight_size ->
  (forall op, (op < 4)%nat -> legal b op = true -> table_ok (afterstate b op)) ->
  exists ev vx, evaluate weight b = Some ev /\
    (ev_x ev < 4)%nat /\
    ev_v ev !! ev_x ev = Some vx /\
    (forall op, (op < 4)%nat ->
       ev_r ev !! op = Some (reward b op) /\ ev_a ev !! op = Some (afterstate b op)) /\
    (forall op, (op < 4)%nat -> legal b op = true ->
       ev_v ev !! op = candidate weight b op /\
       candidate weight b op =
         (fun u => fadd (float_of_int (reward b op)) u) <$> V weight (afterstate b op) /\
       is_Some (candidate weight b op)) /\
    (legal b (ev_x ev) = true -> candidate weight b (ev_x ev) = Some vx) /\
    (legal b (ev_x ev) = false -> ev_x ev = 0%nat /\ vx = fneg FLT_MAX) /\
    (legal b (ev_x ev) = true <->
     legal b 0 = true \/
     exists op c, (op < 4)%nat /\ legal b op = true /\
       candidate weight b op = Some c /\ fgt c (fneg FLT_MAX) = true) /\
    ((forall op c, (op < 4)%nat -> legal b op = true ->
        candidate weight b op = Some c -> fgt c (fneg FLT_MAX) = true) ->
     (exists op, (op < 4)%nat /\ legal b op = true) -> legal b (ev_x ev) = true) /\
    ((forall op, (op < 4)%nat -> legal b op = false) -> ev_x ev = 0%nat) /\
    (forall op c, (op < 4)%nat -> legal b op = true ->
       candidate weight b op = Some c -> fgt c vx = false) /\
    (forall op c, (op < ev_x ev)%nat -> legal b op = true ->
       candidate weight b op = Some c -> is_nan c = false -> fgt vx c = true).
Proof.
  intros Hlen Hok.
  pose proof (table_reads weight b Hlen Hok) as Hread.
  assert (Hcand : forall op, (op < 4)%nat -> legal b op = true ->
            candidate weight b op = Some (v_entry weight b op))
    by (intros; apply v_entry_candidate; auto).
  assert (Hx : (select weight b 4 < 4)%nat) by (pose proof (select_le weight b 4); cbn in *; lia).
  exists (scored_at weight b 4), (v_entry weight b (select weight b 4)).
  split; [now apply evaluate_scored|].
  change (ev_x (scored_at weight b 4)) with (select weight b 4).
  split; [exact Hx|].
  split; [apply (scored_at_lookup weight b _ Hx)|].
  split; [intros op Hop; destruct (scored_at_lookup weight b op Hop) as (? & ? & ?); auto|].
  split.
  { intros op Hop Hl. destruct (scored_at_lookup weight b op Hop) as (_ & _ & Hv).
    rewrite Hv, Hcand by assumption.
    split; [reflexivity|]. split; [|eauto].
    destruct (Hread op Hop Hl) as [u Hu].
    unfold v_entry, candidate. rewrite Hl, Hu. reflexivity. }
  split; [intros Hl; now apply Hcand|].
  split.
  { intros Hl.
    destruct (select_sentinel_cases weight b 4) as [(Hsel & H0 & _) | (Hleg & _)];
      [|congruence].
    rewrite Hsel. split; [reflexivity|]. now apply v_entry_sentinel. }
  split.
  { destruct (select_sentinel_cases weight b 4) as [(Hsel & H0 & Hnone) | (Hleg & Hwhy)].
    - split.
      + intros Hl. rewrite Hsel in Hl. congruence.
      + intros [H0' | (op & c & Hop & Hl & Hc & Hgt)]; [congruence|].
        rewrite Hcand in Hc by assumption. apply (inj Some) in Hc. subst c.
        rewrite Hnone in Hgt by assumption. discriminate Hgt.
    - split; [intros _ | intros _; exact Hleg].
      destruct Hwhy as [H0 | (op & Hop & Hl & Hgt)]; [left; exact H0 | right].
      exists op, (v_entry weight b op).
      split; [exact Hop|]. split; [exact Hl|]. split; [now apply Hcand | exact Hgt]. }
  split.
  { intros Habove (op & Hop & Hl).
    destruct (select_sentinel_cases weight b 4) as [(_ & _ & Hnone) | (Hleg & _)];
      [|exact Hleg].
    pose proof (Habove op _ Hop Hl (Hcand op Hop Hl)) as Hgt.
    rewrite Hnone in Hgt by assumption. discriminate Hgt. }
  split; [apply select_none|].
  split.
  - intros op c Hop Hl Hc. rewrite Hcand in Hc by assumption.
    apply (inj Some) in Hc. subst c. now apply select_greatest.
  - intros op c Hop Hl Hc Hn. rewrite Hcand in Hc by (assumption || lia).
    apply (inj Some) in Hc. subst c. now apply select_first_known.
Qed.

Lemma action_selection_witness :
  exists ev, evaluate weight_init (Board 1 1 0 0) = Some ev /\
             legal (Board 1 1 0 0) (ev_x ev) = true.
Proof.
  destruct (action_selection weight_init (Board 1 1 0 0))
    as (ev & vx & Hev & _ & _ & _ & _ & _ & _ & Hiff & _).
  - reflexivity.
  - intros op Hop _. unfold table_ok, digit_ok.
    destruct op as [|[|[|[|]]]]; [| | | |lia];
      set (a := afterstate _ _); vm_compute in a; subst a; cbn; lia.
  - exists ev. split; [exact Hev|]. apply Hiff. right.
    exists 1%nat, (fadd (float_of_int 4) fzero).
    split; [lia|]. split; [reflexivity|]. split; reflexivity.
Defined.

(** *** Rewards are not negative *)

Lemma left_row_score (r0 r1 score : Z) :
  rank_ok r0 -> 0 <= score <= 2 ^ 16 ->
  score <= snd (left_row (r0, r1) score) <= score + 2 ^ 16.
Proof.
  unfold rank_ok. intros Hr Hs. unfold left_row.
  destruct (Z.eqb_spec r0 0); [cbn; lia|].
  destruct (Z.eqb_spec r0 r1); [|cbn; lia].
  cbn [snd]. rewrite tile_value_pow2 by lia.
  assert (0 < 2 ^ (r0 + 1) <= 2 ^ 16)
    by (split; [apply Z.pow_pos_nonneg | apply Z.pow_le_mono_r]; lia).
  change (2 ^ 16) with 65536 in *.
  rewrite add_score_small; change (2 ^ 31) with 2147483648; lia.
Qed.

Lemma left_score_nonneg (b : board) : board_ok b -> 0 <= left_score b.
Proof.
  intros (H00 & _ & H10 & _). unfold left_score.
  pose proof (left_row_score (t00 b) (t01 b) 0 H00) as H1.
  change (2 ^ 16) with 65536 in *.
  assert (Hs : 0 <= snd (left_row (t00 b, t01 b) 0) <= 65536) by lia.
  (* the second row may only add to the score of the first *)
  unfold left_row at 1. destruct (Z.eqb_spec (t10 b) 0); [cbn [snd]; lia|].
  destruct (Z.eqb_spec (t10 b) (t11 b)); [|cbn [snd]; lia].
  cbn [snd]. unfold rank_ok in H10. rewrite tile_value_pow2 by lia.
  assert (0 < 2 ^ (t10 b + 1) <= 2 ^ 16)
    by (split; [apply Z.pow_pos_nonneg | apply Z.pow_le_mono_r]; lia).
  change (2 ^ 16) with 65536 in *.
  rewrite add_score_small; change (2 ^ 31) with 2147483648; lia.
Qed.

Lemma reward_nonneg (b : board) (op : nat) :
  board_ok b -> (op < 4)%nat -> legal b op = true -> 0 <= reward b op.
Proof.
  intros Hok Hop Hl. unfold legal in Hl. unfold reward in *.
  rewrite move_frame, left_fst in * by lia.
  destruct (operator_int _ =? operator_int _); [discriminate Hl|].
  apply left_score_nonneg, frame_ok, Hok.
Qed.

(** On a table without negative entries every legal candidate compares
    above the initial [v[0]]. *)
Lemma candidates_above_sentinel (weight : list float) (b : board) :
  board_ok b -> Forall (fun u => nonneg u = true) weight ->
  forall op c, (op < 4)%nat -> legal b op = true ->
  candidate weight b op = Some c -> fgt c (fneg FLT_MAX) = true.
Proof.
  intros Hb Hw op c Hop Hl. unfold candidate, V.
  destruct (V_index (afterstate b op) <? 0); [discriminate|].
  destruct (weight !! Z.to_nat (V_index (afterstate b op))) as [u|] eqn:Hu; [|discriminate].
  cbn. intros [= <-].
  apply nonneg_above_sentinel, fadd_nonneg.
  - apply float_of_int_nonneg, reward_nonneg; assumption.
  - rewrite Forall_forall in Hw. apply Hw. eapply list_elem_of_lookup_2, Hu.
Qed.

(** *** The forward update *)

Lemma variant_index_lt (b : board) (k : nat) :
  table_ok b -> variant_index b k -> (k < weight_size)%nat.
Proof.
  intros Hok (i & _ & ->).
  pose proof (V_index_bounds _ (isomorphic_table_ok (Z.of_nat i) b Hok)).
  unfold weight_size, variant. lia.
Qed.

Lemma variant_index_self (b : board) : variant_index b (Z.to_nat (V_index b)).
Proof. exists 0%nat. split; [unfold isomorphic_count; lia | now destruct b]. Qed.

Lemma weight_init_lookup (k : nat) :
  (k < weight_size)%nat -> weight_init !! k = Some fzero.
Proof. intros Hk. apply lookup_replicate_2, Hk. Qed.

Lemma V_weight_init (b : board) : table_ok b -> V weight_init b = Some fzero.
Proof.
  intros Hok. destruct (V_in_bounds weight_init b eq_refl Hok) as [-> _].
  apply weight_init_lookup.
  pose proof (V_index_bounds b Hok). unfold weight_size. lia.
Qed.

Lemma forward_target_scored (weight : list float) (b : board) :
  forward_target (scored_at weight b 4) =
  Some (if legal b (select weight b 4) then v_entry weight b (select weight b 4)
        else fzero).
Proof.
  assert (Hx : (select weight b 4 < 4)%nat)
    by (pose proof (select_le weight b 4); cbn in *; lia).
  destruct (scored_at_lookup weight b _ Hx) as (Hr & _ & Hv).
  unfold forward_target.
  change (ev_x (scored_at weight b 4)) with (select weight b 4).
  rewrite Hr, Hv. cbn [mbind option_bind]. unfold legal.
  now destruct (_ =? _).
Qed.

(** C1. On a step whose history ends with a prior afterstate and the
    current before-state, the forward block takes as target the
    candidate value of the selected direction when that one is legal and
    0 when it is not (in particular when no direction is legal), computes
    [delta = alpha * (target - V(prior))] and adds this one [delta] once
    to the table entry of every variant of the prior afterstate, leaving
    all other entries alone. From the all-zero table every affected entry
    becomes [alpha * target]. With a history of one entry the table is
    not touched. *)
Theorem forward_td_update (cfg : config) (weight : list float)
    (hist : list board) (prior b : board) :
  forward cfg = true ->
  length weight = weight_size ->
  table_ok prior ->
  board_ok b ->
  (forall op, (op < 4)%nat -> legal b op = true -> table_ok (afterstate b op)) ->
  exists ev target u weight',
    evaluate weight b = Some ev /\
    forward_target ev = Some target /\
    (legal b (ev_x ev) = true -> candidate weight b (ev_x ev) = Some target) /\
    (legal b (ev_x ev) = false -> target = fzero) /\
    ((forall op, (op < 4)%nat -> legal b op = false) -> target = fzero) /\
    V weight prior = Some u /\
    forward_update cfg weight (hist ++ [prior; b]) ev = Some weight' /\
    length weight' = weight_size /\
    (forall k,
       (variant_index prior k ->
        weight' !! k = (fun old => fadd old (fmul alpha (fsub target u))) <$> (weight !! k)) /\
       (~ variant_index prior k -> weight' !! k = weight !! k)) /\
    (weight = weight_init ->
     forall k, variant_index prior k -> weight' !! k = Some (fmul alpha target)) /\
    forward_update cfg weight [b] ev = Some weight.
Proof.
  intros Hfw Hlen Hprior Hb Hok.
  pose proof (table_reads weight b Hlen Hok) as Hread.
  set (x := select weight b 4).
  assert (Hx : (x < 4)%nat) by (pose proof (select_le weight b 4); cbn in *; lia).
  set (target := if legal b x then v_entry weight b x else fzero).
  destruct (V_in_bounds weight prior Hlen Hprior) as [_ [u Hu]].
  destruct (train_isomorphic_spec weight prior (fmul alpha (fsub target u)) Hlen Hprior)
    as (weight' & Htrain & Hlen' & Hk).
  exists (scored_at weight b 4), target, u, weight'.
  change (ev_x (scored_at weight b 4)) with x.
  assert (Hupd : forward_update cfg weight (hist ++ [prior; b]) (scored_at weight b 4)
                 = Some weight').
  { unfold forward_update. rewrite Hfw, length_app. cbn [length andb].
    destruct (Nat.ltb_spec 1 (length hist + 2)); [|lia].
    rewrite forward_target_scored. cbn [mbind option_bind].
    rewrite lookup_app_r by lia.
    replace (length hist + 2 - 2 - length hist)%nat with 0%nat by lia.
    cbn [lookup list_lookup mbind option_bind]. rewrite Hu. cbn [mbind option_bind].
    exact Htrain. }
  split; [now apply evaluate_scored|].
  split; [apply forward_target_scored|].
  split.
  { intros Hl. subst target. rewrite Hl. apply v_entry_candidate; auto. }
  split; [intros Hl; subst target; now rewrite Hl|].
  split.
  { intros Hnone. subst target.
    assert (Hsel : x = 0%nat) by (apply select_none; exact Hnone).
    rewrite Hsel, (Hnone 0%nat) by lia. reflexivity. }
  split; [exact Hu|].
  split; [exact Hupd|].
  split; [exact Hlen'|].
  split; [exact Hk|].
  split.
  - intros -> k Hvar.
    destruct (Hk k) as [Hyes _]. rewrite (Hyes Hvar).
    rewrite weight_init_lookup by (now apply variant_index_lt with prior).
    rewrite V_weight_init in Hu by exact Hprior. injection Hu as <-.
    cbn [fmap option_fmap option_map]. f_equal.
    apply first_update_value.
    subst target. destruct (legal b x) eqn:Hl; [|reflexivity].
    unfold v_entry, candidate. rewrite Hl, V_weight_init by auto.
    cbn [mbind option_bind default].
    pose proof (float_of_int_sign _ (reward_nonneg b x Hb Hx Hl)) as Hs.
    now rewrite fadd_zero_r.
  - unfold forward_update. rewrite Hfw. reflexivity.
Qed.

Lemma forward_td_update_witness :
  exists weight',
    forward_update default_config weight_init
      [Board 1 0 0 0; Board 0 1 0 0; Board 1 1 0 0]
      (scored_at weight_init (Board 1 1 0 0) 4) = Some weight' /\
    weight' !! 36%nat = Some (fmul alpha (float_of_int 4)).
Proof.
  assert (Hafter : forall op, (op < 4)%nat -> table_ok (afterstate (Board 1 1 0 0) op)).
  { intros op Hop. unfold table_ok, digit_ok.
    destruct op as [|[|[|[|]]]]; [| | | |lia];
      set (a := afterstate _ _); vm_compute in a; subst a; cbn; lia. }
  destruct (forward_td_update default_config weight_init [Board 1 0 0 0]
              (Board 0 1 0 0) (Board 1 1 0 0))
    as (ev & target & u & weight' & Hev & Htarget & _ & _ & _ & _ & Hupd & _ & _ & Hzero & _).
  - reflexivity.
  - reflexivity.
  - unfold table_ok, digit_ok; cbn; lia.
  - unfold board_ok, rank_ok; cbn; lia.
  - intros op Hop _. now apply Hafter.
  - assert (Hev' : ev = scored_at weight_init (Board 1 1 0 0) 4).
    { rewrite evaluate_scored in Hev; [congruence|].
      intros op Hop _. apply V_in_bounds; [reflexivity | now apply Hafter]. }
    subst ev. exists weight'. split; [exact Hupd|].
    assert (Ht : target = float_of_int 4).
    { rewrite forward_target_scored in Htarget.
      apply (inj Some) in Htarget. rewrite <- Htarget. vm_compute. reflexivity. }
    rewrite <- Ht. apply Hzero; [reflexivity|].
    exists 0%nat. split; [unfold isomorphic_count; lia | reflexivity].
Defined.

(** *** The backward replay *)

Lemma history_of_snoc (steps : list step) (s : step) :
  history_of (steps ++ [s]) = history_of steps ++ [before s; after s].
Proof. unfold history_of. rewrite flat_map_app. reflexivity. Qed.

Lemma history_of_length (steps : list step) :
  length (history_of steps) = (2 * length steps)%nat.
Proof.
  induction steps as [|s steps IH]; [reflexivity|].
  cbn [history_of flat_map length app] in *. unfold history_of in IH. lia.
Qed.

Lemma removelast_snoc {A : Type} (l : list A) (x : A) : removelast (l ++ [x]) = l.
Proof. apply removelast_last. Qed.

Lemma backward_loop_refines (steps : list step) :
  forall (fuel : nat) (weight : list float) (exact : float),
  (length steps <= fuel)%nat ->
  backward_loop fuel weight (history_of steps) (actions_of steps) exact =
  replay_spec (rev steps) weight exact.
Proof.
  induction steps as [|s steps IH] using rev_ind; intros fuel weight exact Hfuel.
  - destruct fuel; reflexivity.
  - rewrite length_app in Hfuel. cbn [length] in Hfuel.
    destruct fuel as [|fuel]; [lia|].
    rewrite rev_unit, history_of_snoc. unfold actions_of. rewrite fmap_app.
    cbn [fmap list_fmap replay_spec backward_loop].
    destruct (history_of steps ++ [before s; after s]) eqn:Hnil;
      [now destruct (history_of steps)|]. rewrite <- Hnil. clear Hnil.
    change [before s; after s] with ([before s] ++ [after s]).
    rewrite app_assoc, last_snoc, removelast_snoc, last_snoc, removelast_snoc.
    rewrite last_snoc, removelast_snoc. cbn [mbind option_bind].
    destruct (V weight (after s)) as [u|]; [|reflexivity]. cbn [mbind option_bind].
    destruct (train_isomorphic weight (after s) _) as [weight'|]; [|reflexivity].
    cbn [mbind option_bind].
    destruct (V weight' (after s)) as [u'|]; [|reflexivity]. cbn [mbind option_bind].
    apply IH. lia.
Qed.

Lemma replay_spec_total (steps_rev : list step) :
  forall (weight : list float) (exact : float),
  length weight = weight_size ->
  Forall (fun s => table_ok (after s)) steps_rev ->
  exists weight', replay_spec steps_rev weight exact = Some weight' /\
                  length weight' = weight_size.
Proof.
  induction steps_rev as [|s earlier IH]; intros weight exact Hlen Hok.
  - now exists weight.
  - apply Forall_cons in Hok as [Hs Hok]. cbn [replay_spec].
    destruct (V_in_bounds weight (after s) Hlen Hs) as [_ [u Hu]].
    rewrite Hu. cbn [mbind option_bind].
    destruct (train_isomorphic_spec weight (after s) (fmul alpha (fsub exact u)) Hlen Hs)
      as (weight' & Htrain & Hlen' & _).
    rewrite Htrain. cbn [mbind option_bind].
    destruct (V_in_bounds weight' (after s) Hlen' Hs) as [_ [u' Hu']].
    rewrite Hu'. cbn [mbind option_bind].
    now apply IH.
Qed.

(** One visit of the replay, entry by entry. *)
Lemma replay_spec_visit (s : step) (earlier : list step)
    (weight : list float) (exact : float) :
  length weight = weight_size -> table_ok (after s) ->
  exists u weight',
    V weight (after s) = Some u /\
    train_isomorphic weight (after s) (fmul alpha (fsub exact u)) = Some weight' /\
    V weight' (after s) = Some (fadd u (fmul alpha (fsub exact u))) /\
    replay_spec (s :: earlier) weight exact =
    replay_spec earlier weight'
      (fadd (fadd u (fmul alpha (fsub exact u)))
            (float_of_int (reward (before s) (action s)))).
Proof.
  intros Hlen Hs.
  destruct (V_in_bounds weight (after s) Hlen Hs) as [HV [u Hu]].
  destruct (train_isomorphic_spec weight (after s) (fmul alpha (fsub exact u)) Hlen Hs)
    as (weight' & Htrain & Hlen' & Hk).
  exists u, weight'.
  assert (Hu' : V weight' (after s) = Some (fadd u (fmul alpha (fsub exact u)))).
  { destruct (V_in_bounds weight' (after s) Hlen' Hs) as [-> _].
    destruct (Hk (Z.to_nat (V_index (after s)))) as [Hyes _].
    rewrite (Hyes (variant_index_self _)), <- HV, Hu. reflexivity. }
  repeat split; try assumption.
  cbn [replay_spec]. rewrite Hu. cbn [mbind option_bind].
  rewrite Htrain. cbn [mbind option_bind]. rewrite Hu'. reflexivity.
Qed.

(** The vectors that [play] leaves have the shape of an episode. *)
Lemma play_shape (cfg : config) (rands : list (Z * Z)) :
  forall (st st' : learner) (b : board) (steps : list step),
  history st = history_of steps -> actions st = actions_of steps ->
  play cfg rands st b = Some st' ->
  exists steps' terminal,
    history st' = history_of steps' ++ [terminal] /\
    actions st' = actions_of steps'.
Proof.
  induction rands as [|[rand1 rand2] rands IH]; intros st st' b steps Hh Ha Hplay;
    [discriminate Hplay|].
  cbn [play] in Hplay. unfold play_step in Hplay.
  destruct (evaluate _ _) as [ev|]; [|discriminate Hplay]. cbn [mbind option_bind] in Hplay.
  destruct (forward_update _ _ _ _) as [w'|]; [|discriminate Hplay].
  cbn [mbind option_bind] in Hplay.
  destruct (ev_r ev !! ev_x ev) as [rx|]; [|discriminate Hplay].
  cbn [mbind option_bind] in Hplay.
  destruct (rx =? -1).
  - cbn [mbind option_bind] in Hplay. injection Hplay as <-.
    exists steps, (next rand1 rand2 b). cbn [history actions]. now rewrite Hh, Ha.
  - destruct (ev_a ev !! ev_x ev) as [ax|]; [|discriminate Hplay].
    cbn [mbind option_bind] in Hplay.
    apply (IH _ _ _ (steps ++ [Step (next rand1 rand2 b) (ev_x ev) ax])) in Hplay;
      [exact Hplay | |]; cbn [history actions].
    + now rewrite history_of_snoc, Hh, <- app_assoc.
    + unfold actions_of. now rewrite fmap_app, Ha.
Qed.

(** C6. With backward mode enabled, the replay block of [main] run on
    the history and the actions of an episode (its steps followed by the
    terminal before-state) is the replay of the specification: from the
    last afterstate to the first, with [exact] starting at 0, each
    afterstate is trained by [delta = alpha * (exact - V(state))] through
    [train_isomorphic], after which [exact] becomes the value read back
    at the state plus the reward of the recorded action on the preceding
    before-state. The replay returns whenever the afterstates index the
    table, and each visit leaves [V(state) + delta] at the state. The
    vectors that the playing loop leaves have the shape required. *)
Theorem backward_replay_refines (cfg : config) (w0 : list float)
    (steps : list step) (terminal : board) :
  backward cfg = true ->
  backward_replay cfg
    (Learner w0 (history_of steps ++ [terminal]) (actions_of steps)) =
  replay_spec (rev steps) w0 fzero /\
  (forall rands st,
     play cfg rands (Learner w0 [] []) board_empty = Some st ->
     exists steps' terminal',
       history st = history_of steps' ++ [terminal'] /\
       actions st = actions_of steps' /\
       backward_replay cfg st = replay_spec (rev steps') (weight st) fzero) /\
  (length w0 = weight_size ->
   Forall (fun s => table_ok (after s)) steps ->
   (exists w', replay_spec (rev steps) w0 fzero = Some w' /\
               length w' = weight_size) /\
   forall s earlier w exact, length w = weight_size -> s ∈ steps ->
     exists u w',
       V w (after s) = Some u /\
       train_isomorphic w (after s) (fmul alpha (fsub exact u)) = Some w' /\
       V w' (after s) = Some (fadd u (fmul alpha (fsub exact u))) /\
       replay_spec (s :: earlier) w exact =
       replay_spec earlier w'
         (fadd (fadd u (fmul alpha (fsub exact u)))
               (float_of_int (reward (before s) (action s))))).
Proof.
  intros Hbw.
  assert (Hrefines : forall w l t,
    backward_replay cfg (Learner w (history_of l ++ [t]) (actions_of l)) =
    replay_spec (rev l) w fzero).
  { intros w l t. unfold backward_replay. rewrite Hbw. cbn [history weight actions].
    destruct (history_of l ++ [t]) eqn:Hnil;
      [now destruct (history_of l)|]. rewrite <- Hnil. clear Hnil.
    rewrite removelast_snoc. apply backward_loop_refines.
    rewrite history_of_length. lia. }
  split; [apply Hrefines|]. split.
  - intros rands st Hplay.
    destruct (play_shape cfg rands (Learner w0 [] []) st board_empty []
                eq_refl eq_refl Hplay)
      as (steps' & terminal' & Hh & Ha).
    exists steps', terminal'. split; [exact Hh|]. split; [exact Ha|].
    rewrite <- Hrefines with (t := terminal'), <- Hh, <- Ha. now destruct st.
  - intros Hlen Hok. split.
    + apply replay_spec_total; [exact Hlen|]. now apply Forall_rev.
    + intros s earlier w exact Hw Hs. apply replay_spec_visit; [exact Hw|].
      rewrite Forall_forall in Hok. now apply Hok.
Qed.

Lemma backward_replay_refines_witness :
  play (Config false true) short_draws (Learner weight_init [] []) board_empty =
    Some (Learner weight_init (history_of short_game ++ [Board 1 2 2 1])
            (actions_of short_game)) /\
  backward_replay (Config false true)
    (Learner weight_init (history_of short_game ++ [Board 1 2 2 1])
       (actions_of short_game)) =
    replay_spec (rev short_game) weight_init fzero /\
  exists w', replay_spec (rev short_game) weight_init fzero = Some w' /\
    length w' = weight_size /\
    V w' (Board 1 2 2 0) = Some fzero /\
    V w' (Board 1 1 2 0) = Some (S754_finite false 10737418 (-28)) /\
    V w' (Board 0 0 2 1) = Some (S754_finite false 13743895 (-35)) /\
    V w' (Board 0 1 0 0) = Some (S754_finite false 8796093 (-41)) /\
    V w' (Board 5 5 5 5) = Some fzero.
Proof.
  destruct (backward_replay_refines (Config false true) weight_init short_game
              (Board 1 2 2 1) eq_refl) as (Href & _ & Htot).
  split; [vm_compute; reflexivity|]. split; [exact Href|].
  destruct Htot as [(w' & Hw' & Hlen) _];
    [reflexivity |
     repeat (constructor; [unfold table_ok, digit_ok; cbn; lia|]); constructor |].
  exists w'. split; [exact Hw'|]. split; [exact Hlen|].
  vm_compute in Hw'. apply (inj Some) in Hw'. subst w'.
  vm_compute. repeat split; reflexivity.
Defined.

(** ** More on the board engine *)

Lemma rem_norm_4 (r : Z) : Z.rem (Z.rem r 4 + 4) 4 = r mod 4.
Proof. Z.to_euclidean_division_equations. lia. Qed.

Lemma rem_norm_8 (r : Z) : Z.rem (Z.rem r 8 + 8) 8 = r mod 8.
Proof. Z.to_euclidean_division_equations. lia. Qed.

Lemma rotate_cases (r : Z) (b : board) :
  rotate r b =
  match r mod 4 with
  | 1 => mirror (transpose b)
  | 2 => flip (mirror b)
  | 3 => flip (transpose b)
  | _ => b
  end.
Proof. unfold rotate. now rewrite rem_norm_4. Qed.

Ltac four_cases k :=
  let H := fresh in
  assert (H : k = 0 \/ k = 1 \/ k = 2 \/ k = 3) by lia;
  destruct H as [-> | [-> | [-> | ->]]].

(** X1. Quarter turns compose by adding their counts, for any two
    integers; in particular four turns are none, and [rotate (-r)]
    undoes [rotate r]. *)
Theorem rotate_compose (r s : Z) (b : board) :
  rotate r (rotate s b) = rotate (r + s) b /\
  rotate (r + 4) b = rotate r b /\
  rotate (- r) (rotate r b) = b.
Proof.
  assert (Hadd : forall r s b, rotate r (rotate s b) = rotate (r + s) b).
  { clear. intros r s b.
    rewrite (rotate_cases r), (rotate_cases s), (rotate_cases (r + s)), Z.add_mod by lia.
    pose proof (Z.mod_pos_bound r 4 ltac:(lia)) as Hr.
    pose proof (Z.mod_pos_bound s 4 ltac:(lia)) as Hs.
    revert Hr Hs. generalize (r mod 4) (s mod 4). intros kr ks Hr Hs.
    four_cases kr; four_cases ks; destruct b; reflexivity. }
  split; [apply Hadd|]. split.
  - rewrite !rotate_cases. replace ((r + 4) mod 4) with (r mod 4); [reflexivity|].
    rewrite <- (Z.mod_add r 1 4) by lia. f_equal; lia.
  - rewrite Hadd. replace (- r + r) with 0 by lia. reflexivity.
Qed.

(** X2. The three reflections are involutions; [mirror] and [flip]
    commute and compose to the half turn, and [transpose] exchanges
    them. *)
Theorem reflections (b : board) :
  mirror (mirror b) = b /\ flip (flip b) = b /\ transpose (transpose b) = b /\
  mirror (flip b) = flip (mirror b) /\ flip (mirror b) = rotate 2 b /\
  transpose (mirror (transpose b)) = flip b /\
  transpose (flip (transpose b)) = mirror b.
Proof. destruct b. repeat split. Qed.

Lemma isomorphic_cases (i : Z) (b : board) :
  isomorphic i b = rotate (i mod 8) (if 4 <? i mod 8 then mirror b else b).
Proof. unfold isomorphic. cbn zeta. now rewrite rem_norm_8. Qed.

Lemma isomorphic_in_seven (i : Z) (b : board) : isomorphic i b ∈ seven b.
Proof.
  rewrite isomorphic_cases.
  pose proof (Z.mod_pos_bound i 8 ltac:(lia)) as Hi.
  revert Hi. generalize (i mod 8). intros k Hk.
  assert (Hc : k = 0 \/ k = 1 \/ k = 2 \/ k = 3 \/ k = 4 \/ k = 5 \/ k = 6 \/ k = 7) by lia.
  unfold seven.
  destruct Hc as [-> | [-> | [-> | [-> | [-> | [-> | [-> | ->]]]]]]];
    cbn [Z.ltb Z.compare Pos.compare Pos.compare_cont];
    rewrite ?elem_of_cons; auto 10.
Qed.

(** X3. Whatever the index, [isomorphic] yields the board itself, one of
    its three rotations, or a rotation of its mirror image by one, two or
    three quarter turns; index 4 repeats index 0, so the eight indices
    give at most seven boards. The plain mirror image is not among them
    when the four cells are pairwise different. *)
Theorem isomorphic_seven (i : Z) (b : board) :
  isomorphic i b ∈ seven b /\
  isomorphic (i + 8) b = isomorphic i b /\
  isomorphic 4 b = b /\ isomorphic 0 b = b /\
  (NoDup (cells b) -> mirror b ∉ seven b).
Proof.
  split; [|split; [|split; [|split]]].
  - apply isomorphic_in_seven.
  - rewrite !isomorphic_cases. replace ((i + 8) mod 8) with (i mod 8); [reflexivity|].
    rewrite <- (Z.mod_add i 1 8) by lia. f_equal; lia.
  - now destruct b.
  - now destruct b.
  - destruct b as [a b c d]. unfold cells, seven. cbn [t00 t01 t10 t11].
    intros Hnd. rewrite !NoDup_cons, !not_elem_of_cons in Hnd.
    destruct Hnd as ((? & ? & ? & _) & (? & ? & _) & (? & _) & _).
    rewrite !elem_of_cons, elem_of_nil. cbn.
    intros [He | [He | [He | [He | [He | [He | [He | []]]]]]]]; injection He; congruence.
Qed.

Lemma isomorphic_seven_witness : mirror (Board 1 2 3 4) ∉ seven (Board 1 2 3 4).
Proof.
  apply (isomorphic_seven 0 (Board 1 2 3 4)). unfold cells. cbn [t00 t01 t10 t11].
  repeat (apply NoDup_cons_2;
          [rewrite ?not_elem_of_cons; repeat split; try discriminate; apply not_elem_of_nil|]).
  apply NoDup_nil_2.
Defined.

(** *** Moves and symmetries *)

Lemma move_unfold (opcode : Z) (b : board) :
  0 <= opcode <= 3 ->
  move opcode b =
  (fst (left (frame opcode b)), unframe opcode (snd (left (frame opcode b)))).
Proof.
  intros Hop. four_cases opcode; cbn [move frame unframe]; unfold up, down, right;
    repeat match goal with |- context [ left ?x ] => destruct (left x) end; reflexivity.
Qed.

Lemma unframe_frame (opcode : Z) (b : board) : unframe opcode (frame opcode b) = b.
Proof. destruct b. destruct opcode as [|[[?|?|]|[?|?|]|]|?]; reflexivity. Qed.

Lemma frame_unframe (opcode : Z) (b : board) : frame opcode (unframe opcode b) = b.
Proof. destruct b. destruct opcode as [|[[?|?|]|[?|?|]|]|?]; reflexivity. Qed.

Lemma unframe_cells (opcode : Z) (b : board) : cells (unframe opcode b) ≡ₚ cells b.
Proof.
  destruct opcode as [|[[?|?|]|[?|?|]|]|?]; cbn [unframe];
    rewrite ?rotate_cells, ?mirror_cells; reflexivity.
Qed.

(** X4. [up] and [down] are [left] and [right] played on the transposed
    board, for every board: same result, transposed board. *)
Theorem up_down_transposed (b : board) :
  up b = (fst (left (transpose b)), transpose (snd (left (transpose b)))) /\
  down b = (fst (right (transpose b)), transpose (snd (right (transpose b)))).
Proof.
  unfold up, down, right. rewrite !rotate_1, mirror_mirror.
  destruct (left (transpose b)) as [s [a0 a1 a2 a3]].
  destruct (left (mirror (transpose b))) as [s' [c0 c1 c2 c3]].
  split; reflexivity.
Qed.

(** *** What a move does to the board *)

Lemma left_row_fixed (r0 r1 score : Z) :
  fst (left_row (r0, r1) score) = (r0, r1) <-> row_stuck r0 r1.
Proof.
  unfold left_row, row_stuck.
  destruct (Z.eqb_spec r0 0); [|destruct (Z.eqb_spec r0 r1)]; cbn [fst];
    rewrite pair_equal_spec; lia.
Qed.

Lemma left_row_again (row : Z * Z) (s s' : Z) :
  left_row (fst (left_row row s)) s' = (fst (left_row row s), s').
Proof.
  destruct row as [r0 r1]. unfold left_row at 2 3.
  destruct (Z.eqb_spec r0 0); [|destruct (Z.eqb_spec r0 r1)]; cbn [fst]; unfold left_row.
  - destruct (Z.eqb_spec r1 0); [now subst|].
    destruct (Z.eqb_spec r1 0); [lia | reflexivity].
  - destruct (Z.eqb_spec (r0 + 1) 0) as [-> | Hne]; [reflexivity|].
    destruct (Z.eqb_spec (r0 + 1) 0); [lia | reflexivity].
  - destruct (Z.eqb_spec r0 0); [lia|]. destruct (Z.eqb_spec r0 r1); [lia | reflexivity].
Qed.

Lemma left_fixed_iff (b : board) :
  snd (left b) = b <-> row_stuck (t00 b) (t01 b) /\ row_stuck (t10 b) (t11 b).
Proof.
  rewrite left_unfold. cbn zeta. cbn [snd].
  rewrite <- (left_row_fixed (t00 b) (t01 b) 0).
  rewrite <- (left_row_fixed (t10 b) (t11 b) (snd (left_row (t00 b, t01 b) 0))).
  destruct (left_row (t00 b, t01 b) 0) as [[a0 a1] s]. cbn [fst snd].
  destruct (left_row (t10 b, t11 b) s) as [[c0 c1] s']. cbn [fst snd].
  destruct b as [a b c d]. cbn [t00 t01 t10 t11].
  split; [intros [= -> -> -> ->]; auto | intros [[= -> ->] [= -> ->]]; reflexivity].
Qed.

Lemma left_again (b : board) : left (snd (left b)) = (-1, snd (left b)).
Proof.
  rewrite (left_unfold b). cbn zeta. cbn [snd].
  set (r := left_row (t00 b, t01 b) 0).
  set (r' := left_row (t10 b, t11 b) (snd r)).
  unfold left. cbn [t00 t01 t10 t11].
  replace (fst (fst r), snd (fst r)) with (fst r) by now destruct (fst r).
  replace (fst (fst r'), snd (fst r')) with (fst r') by now destruct (fst r').
  unfold r at 1. rewrite left_row_again. fold r.
  unfold r' at 1. rewrite left_row_again. fold r'.
  destruct (fst r) as [a0 a1], (fst r') as [c0 c1]. cbn [fst snd].
  now rewrite Z.eqb_refl.
Qed.

(** X5. No direction is legal twice in a row: after [move] with one of
    the four opcodes, on any board, the same [move] returns [-1] and
    leaves the board as the first one left it. *)
Theorem move_twice_illegal (opcode : Z) (b : board) :
  0 <= opcode <= 3 ->
  move opcode (snd (move opcode b)) = (-1, snd (move opcode b)).
Proof.
  intros Hop. rewrite (move_unfold opcode b Hop). cbn [snd].
  rewrite move_unfold, frame_unframe, left_again by exact Hop. reflexivity.
Qed.

Lemma move_twice_illegal_witness :
  move 3 (snd (move 3 (Board 1 1 2 0))) = (-1, Board 2 0 2 0).
Proof. apply (move_twice_illegal 3 (Board 1 1 2 0)). lia. Defined.

(** X6. On a board of nibbles a move that returns [-1] has left the
    board untouched, whatever the opcode. *)
Theorem illegal_move_unchanged (opcode : Z) (b : board) :
  board_ok b -> fst (move opcode b) = -1 -> snd (move opcode b) = b.
Proof.
  intros Hok Hill.
  destruct (decide (0 <= opcode <= 3)) as [Hop | Hop].
  - rewrite move_unfold in * by exact Hop. cbn [fst snd] in *.
    apply left_illegal_iff in Hill.
    apply (left_changes_encoding _ (frame_ok opcode b Hok)) in Hill.
    rewrite Hill. apply unframe_frame.
  - destruct opcode as [|[[?|?|]|[?|?|]|]|?]; try reflexivity; lia.
Qed.

Lemma illegal_move_unchanged_witness : snd (move 0 (Board 1 2 0 0)) = Board 1 2 0 0.
Proof.
  apply illegal_move_unchanged; [unfold board_ok, rank_ok; cbn; lia | reflexivity].
Defined.

Lemma left_row_changed (r0 r1 score : Z) :
  fst (left_row (r0, r1) score) <> (r0, r1) ->
  snd (fst (left_row (r0, r1) score)) = 0.
Proof.
  unfold left_row.
  destruct (Z.eqb_spec r0 0); [|destruct (Z.eqb_spec r0 r1)]; cbn [fst snd];
    [reflexivity | reflexivity | intros H; now destruct H].
Qed.

Lemma left_changed_zero (b : board) :
  snd (left b) <> b -> t01 (snd (left b)) = 0 \/ t11 (snd (left b)) = 0.
Proof.
  intros Hch.
  assert (Hrows : fst (left_row (t00 b, t01 b) 0) <> (t00 b, t01 b) \/
                  fst (left_row (t10 b, t11 b) (snd (left_row (t00 b, t01 b) 0)))
                    <> (t10 b, t11 b)).
  { destruct (decide (fst (left_row (t00 b, t01 b) 0) = (t00 b, t01 b))) as [H0|]; [|auto].
    right. intros H1. apply Hch, left_fixed_iff.
    now rewrite <- (left_row_fixed _ _ 0), <- (left_row_fixed _ _ (snd (left_row (t00 b, t01 b) 0))). }
  rewrite left_unfold. cbn zeta. cbn [snd t01 t11].
  destruct Hrows as [H | H]; apply left_row_changed in H; auto.
Qed.

Lemma move_leaves_room (opcode : Z) (b : board) :
  0 <= opcode <= 3 -> fst (move opcode b) <> -1 -> 0 ∈ cells (snd (move opcode b)).
Proof.
  intros Hop Hleg. rewrite move_unfold in * by exact Hop. cbn [fst snd] in *.
  rewrite unframe_cells.
  assert (Hch : snd (left (frame opcode b)) <> frame opcode b).
  { intros He. apply Hleg, left_illegal_iff. now rewrite He. }
  apply left_changed_zero in Hch. unfold cells.
  rewrite !elem_of_cons. destruct Hch as [<- | <-]; auto.
Qed.

(** X7. A legal move frees a cell: after a move that does not return
    [-1], on any board, at least one cell is empty, so that the [next]
    that follows always finds room. *)
Theorem legal_move_leaves_room (opcode : Z) (b : board) :
  0 <= opcode <= 3 -> fst (move opcode b) <> -1 ->
  0 ∈ cells (snd (move opcode b)) /\ space (snd (move opcode b)) <> [].
Proof.
  intros Hop Hleg.
  pose proof (move_leaves_room opcode b Hop Hleg) as Hin.
  split; [exact Hin|].
  revert Hin. generalize (snd (move opcode b)). intros [a0 a1 a2 a3].
  unfold cells, space. cbn [t00 t01 t10 t11].
  rewrite !elem_of_cons, elem_of_nil.
  intros [<- | [<- | [<- | [<- | []]]]]; cbn; try discriminate;
    repeat match goal with |- context [ ?x =? 0 ] => destruct (x =? 0) end; discriminate.
Qed.

Lemma legal_move_leaves_room_witness : 0 ∈ cells (snd (move 3 (Board 1 1 2 3))).
Proof.
  apply (legal_move_leaves_room 3 (Board 1 1 2 3)); [lia | vm_compute; discriminate].
Defined.

(** X8. On a board of nibbles no direction is legal exactly when the
    board is empty or jammed: every cell occupied and no two neighbours
    of the same rank. *)
Theorem terminal_iff_jammed (b : board) :
  board_ok b ->
  (forall opcode, fst (move opcode b) = -1) <-> (b = board_empty \/ jammed b).
Proof.
  intros Hok.
  assert (Hone : forall opcode, 0 <= opcode <= 3 ->
            fst (move opcode b) = -1 <->
            row_stuck (t00 (frame opcode b)) (t01 (frame opcode b)) /\
            row_stuck (t10 (frame opcode b)) (t11 (frame opcode b))).
  { intros opcode Hop. rewrite move_unfold by exact Hop. cbn [fst].
    rewrite left_illegal_iff, <- left_fixed_iff.
    apply (left_changes_encoding _ (frame_ok opcode b Hok)). }
  assert (Hempty : b = board_empty <-> t00 b = 0 /\ t01 b = 0 /\ t10 b = 0 /\ t11 b = 0).
  { split; [intros ->; auto | intros (?&?&?&?); now apply board_eq]. }
  rewrite Hempty. clear Hempty Hok.
  pose proof (Hone 0 ltac:(lia)) as H0. pose proof (Hone 1 ltac:(lia)) as H1.
  pose proof (Hone 2 ltac:(lia)) as H2. pose proof (Hone 3 ltac:(lia)) as H3.
  clear Hone. destruct b as [a b c d].
  change (frame 0 (Board a b c d)) with (Board a c b d) in H0.
  change (frame 1 (Board a b c d)) with (Board b a d c) in H1.
  change (frame 2 (Board a b c d)) with (Board c a d b) in H2.
  change (frame 3 (Board a b c d)) with (Board a b c d) in H3.
  unfold jammed, t00, t01, t10, t11 in H0, H1, H2, H3 |- *. split.
  - intros Hall.
    pose proof (proj1 H0 (Hall 0)) as S0. pose proof (proj1 H1 (Hall 1)) as S1.
    pose proof (proj1 H2 (Hall 2)) as S2. pose proof (proj1 H3 (Hall 3)) as S3.
    clear H0 H1 H2 H3 Hall. unfold row_stuck in *.
    destruct S0 as [[[-> ->] | [? ?]] [[-> ->] | [? ?]]],
             S1 as [[[? ?] | [? ?]] [[? ?] | [? ?]]],
             S2 as [[[? ?] | [? ?]] [[? ?] | [? ?]]],
             S3 as [[[? ?] | [? ?]] [[? ?] | [? ?]]];
      try congruence; (left; repeat split; congruence) || (right; repeat split; congruence).
  - intros Hb opcode.
    destruct (decide (0 <= opcode <= 3)) as [Hop | Hop].
    + four_cases opcode; [apply H0 | apply H1 | apply H2 | apply H3];
        clear H0 H1 H2 H3; unfold row_stuck;
        (destruct Hb as [(-> & -> & -> & ->) | (? & ? & ? & ? & ? & ? & ? & ?)];
         [split; left; split; reflexivity | split; right; split; congruence]).
    + destruct opcode as [|[[?|?|]|[?|?|]|]|?]; try reflexivity; lia.
Qed.

Lemma terminal_iff_jammed_witness : fst (move 2 (Board 2 4 1 2)) = -1.
Proof.
  apply (proj2 (terminal_iff_jammed (Board 2 4 1 2)
                  ltac:(unfold board_ok, rank_ok; cbn; lia))).
  right. unfold jammed; cbn. repeat split; discriminate.
Defined.

(** *** Face values and rewards *)

(** X9. The mask of [(1 << r) & -2u] turns the 1 of an empty cell into 0
    and keeps the power of two of every other rank up to 30: the value
    printed for a cell and counted by the score is the tile's face
    value. *)
Theorem tile_value_spec (r : Z) :
  0 <= r <= 30 -> tile_value r = if r =? 0 then 0 else 2 ^ r.
Proof.
  intros Hr.
  assert (Hn : exists n, r = Z.of_nat n /\ (n <= 30)%nat)
    by (exists (Z.to_nat r); lia).
  destruct Hn as (n & -> & Hn).
  do 31 (destruct n as [|n]; [reflexivity|]). lia.
Qed.

Lemma tile_value_spec_witness : tile_value 5 = 32.
Proof. apply (tile_value_spec 5). lia. Defined.

Lemma left_row_face (r0 r1 score : Z) :
  rank_ok r0 -> rank_ok r1 ->
  tile_value (fst (fst (left_row (r0, r1) score))) +
  tile_value (snd (fst (left_row (r0, r1) score))) =
  tile_value r0 + tile_value r1.
Proof.
  unfold rank_ok. intros H0 H1. unfold left_row.
  destruct (Z.eqb_spec r0 0) as [-> | Hne]; [cbn [fst snd]; apply Z.add_comm|].
  destruct (Z.eqb_spec r0 r1) as [<- | Hne']; [|reflexivity].
  cbn [fst snd]. rewrite (tile_value_pow2 (r0 + 1)), (tile_value_pow2 r0) by lia.
  change (tile_value 0) with 0. rewrite Z.pow_add_r by lia. change (2 ^ 1) with 2. ring.
Qed.

Lemma left_face (b : board) : board_ok b -> face (snd (left b)) = face b.
Proof.
  intros (H00 & H01 & H10 & H11). rewrite left_unfold. cbn zeta. cbn [snd].
  unfold face. cbn [t00 t01 t10 t11].
  pose proof (left_row_face (t00 b) (t01 b) 0 H00 H01) as E0.
  pose proof (left_row_face (t10 b) (t11 b) (snd (left_row (t00 b, t01 b) 0)) H10 H11) as E1.
  rewrite <- Z.add_assoc, E0, E1. apply Z.add_assoc.
Qed.

Lemma face_cells (a b : board) : cells a ≡ₚ cells b -> face a = face b.
Proof.
  intros Hp.
  assert (Hsum : forall c, face c = foldr Z.add 0 (tile_value <$> cells c))
    by (intros c; unfold face, cells; cbn; rewrite Z.add_0_r, !Z.add_assoc; reflexivity).
  rewrite !Hsum. apply foldr_permutation_proper; [apply _ | apply _ | intros; lia |].
  now rewrite Hp.
Qed.

Lemma frame_cells (opcode : Z) (b : board) : cells (frame opcode b) ≡ₚ cells b.
Proof.
  destruct opcode as [|[[?|?|]|[?|?|]|]|?]; cbn [frame];
    rewrite ?mirror_cells, ?rotate_cells; reflexivity.
Qed.

Lemma move_face (opcode : Z) (b : board) :
  board_ok b -> face (snd (move opcode b)) = face b.
Proof.
  intros Hok. destruct (decide (0 <= opcode <= 3)) as [Hop | Hop].
  - rewrite move_unfold by exact Hop. cbn [snd].
    rewrite (face_cells _ _ (unframe_cells opcode _)).
    rewrite left_face by now apply frame_ok.
    apply face_cells, frame_cells.
  - destruct opcode as [|[[?|?|]|[?|?|]|]|?]; try reflexivity; lia.
Qed.

Lemma gain_range (r0 r1 : Z) :
  rank_ok r0 -> 0 <= gain r0 r1 <= 65536 /\ gain r0 r1 mod 4 = 0.
Proof.
  unfold rank_ok, gain. intros Hr.
  destruct (Z.eqb_spec r0 0); [split; [lia | reflexivity]|].
  destruct (Z.eqb_spec r0 r1); [|split; [lia | reflexivity]].
  assert (0 < 2 ^ (r0 + 1) <= 2 ^ 16)
    by (split; [apply Z.pow_pos_nonneg | apply Z.pow_le_mono_r]; lia).
  change (2 ^ 16) with 65536 in *. split; [lia|].
  replace (r0 + 1) with (r0 - 1 + 2) by lia.
  rewrite Z.pow_add_r by lia. change (2 ^ 2) with 4. apply Z.mod_mul. lia.
Qed.

Lemma left_row_gain (r0 r1 score : Z) :
  rank_ok r0 -> 0 <= score <= 65536 ->
  snd (left_row (r0, r1) score) = score + gain r0 r1.
Proof.
  unfold rank_ok, gain. intros Hr Hs. unfold left_row.
  destruct (Z.eqb_spec r0 0); [cbn; lia|].
  destruct (Z.eqb_spec r0 r1); [|cbn; lia].
  cbn [snd]. rewrite tile_value_pow2 by lia.
  assert (0 < 2 ^ (r0 + 1) <= 2 ^ 16)
    by (split; [apply Z.pow_pos_nonneg | apply Z.pow_le_mono_r]; lia).
  change (2 ^ 16) with 65536 in *.
  rewrite add_score_small; change (2 ^ 31) with 2147483648; lia.
Qed.

Lemma tile_value_nonneg (r : Z) : rank_ok r -> 0 <= tile_value r.
Proof.
  unfold rank_ok. intros Hr. destruct (Z.eqb_spec r 0) as [-> | Hne]; [change (tile_value 0) with 0; lia|].
  rewrite tile_value_pow2 by lia. apply Z.pow_nonneg. lia.
Qed.

Lemma gain_le_face (r0 r1 : Z) :
  rank_ok r0 -> rank_ok r1 -> gain r0 r1 <= tile_value r0 + tile_value r1.
Proof.
  intros H0 H1. pose proof (tile_value_nonneg r0 H0). pose proof (tile_value_nonneg r1 H1).
  unfold gain. destruct (Z.eqb_spec r0 0); [lia|].
  destruct (Z.eqb_spec r0 r1) as [<- | Hne]; [|lia].
  unfold rank_ok in H0. rewrite (tile_value_pow2 r0) by lia.
  rewrite Z.pow_add_r by lia. change (2 ^ 1) with 2. lia.
Qed.

(** X10. A move never creates or destroys face value: on a board of
    nibbles the sum of the tiles' values is the same after [move] as
    before, for every opcode; and what the move returns never exceeds
    that sum, a merge paying out the value of the two tiles it joins. *)
Theorem move_preserves_face (opcode : Z) (b : board) :
  board_ok b ->
  face (snd (move opcode b)) = face b /\ fst (move opcode b) <= face b.
Proof.
  intros Hok. split; [now apply move_face|].
  pose proof (frame_ok opcode b Hok) as (H00 & H01 & H10 & H11).
  assert (Hpos : 0 <= face (frame opcode b)).
  { unfold face. pose proof (tile_value_nonneg _ H00). pose proof (tile_value_nonneg _ H01).
    pose proof (tile_value_nonneg _ H10). pose proof (tile_value_nonneg _ H11). lia. }
  rewrite <- (face_cells _ _ (frame_cells opcode b)).
  destruct (decide (0 <= opcode <= 3)) as [Hop | Hop].
  - rewrite move_frame, left_fst by exact Hop.
    destruct (operator_int _ =? operator_int _); [lia|].
    unfold left_score. rewrite (left_row_gain _ _ 0 H00) by lia.
    destruct (gain_range _ (t01 (frame opcode b)) H00) as [Hg0 _].
    rewrite left_row_gain by (assumption || lia).
    pose proof (gain_le_face _ _ H00 H01). pose proof (gain_le_face _ _ H10 H11).
    unfold face. lia.
  - assert (Hm : fst (move opcode b) = -1)
      by (destruct opcode as [|[[?|?|]|[?|?|]|]|?]; try reflexivity; lia).
    rewrite Hm. lia.
Qed.

Lemma move_preserves_face_witness :
  face (snd (move 1 (Board 3 3 1 2))) = face (Board 3 3 1 2) /\
  fst (move 1 (Board 3 3 1 2)) <= face (Board 3 3 1 2).
Proof. apply move_preserves_face. unfold board_ok, rank_ok; cbn; lia. Defined.

(** X11. The result of a legal move on a board of nibbles is the sum,
    over the two rows of the move's frame, of [2 ^ (r + 1)] for each row
    of two equal nonzero ranks [r]; it lies between 0 and 131072 and is
    a multiple of 4. *)
Theorem legal_move_result (opcode : Z) (b : board) :
  board_ok b -> 0 <= opcode <= 3 -> fst (move opcode b) <> -1 ->
  fst (move opcode b) =
    gain (t00 (frame opcode b)) (t01 (frame opcode b)) +
    gain (t10 (frame opcode b)) (t11 (frame opcode b)) /\
  0 <= fst (move opcode b) <= 131072 /\
  fst (move opcode b) mod 4 = 0.
Proof.
  intros Hok Hop Hleg.
  pose proof (frame_ok opcode b Hok) as (H00 & _ & H10 & _).
  rewrite move_unfold in * by exact Hop. cbn [fst] in *.
  rewrite left_fst in *.
  destruct (operator_int _ =? operator_int _); [congruence|].
  destruct (gain_range _ (t01 (frame opcode b)) H00) as [Hg0 Hm0].
  destruct (gain_range _ (t11 (frame opcode b)) H10) as [Hg1 Hm1].
  assert (Hs : left_score (frame opcode b) =
               gain (t00 (frame opcode b)) (t01 (frame opcode b)) +
               gain (t10 (frame opcode b)) (t11 (frame opcode b))).
  { unfold left_score.
    rewrite (left_row_gain _ _ 0 H00) by lia.
    rewrite left_row_gain by (assumption || lia). lia. }
  rewrite Hs. split; [reflexivity|]. split; [lia|].
  rewrite Z.add_mod, Hm0, Hm1 by lia. reflexivity.
Qed.

Lemma legal_move_result_witness : fst (move 3 (Board 2 2 3 3)) = 8 + 16.
Proof.
  apply (legal_move_result 3 (Board 2 2 3 3));
    [unfold board_ok, rank_ok; cbn; lia | lia | vm_compute; discriminate].
Defined.

(** *** Tile insertion *)

Lemma elem_of_if_singleton (c : bool) (k pos : Z) :
  pos ∈ (if c then [k] else []) <-> c = true /\ pos = k.
Proof.
  destruct c; [rewrite list_elem_of_singleton | rewrite elem_of_nil]; intuition congruence.
Qed.

Lemma space_spec (b : board) (pos : Z) :
  pos ∈ space b <-> 0 <= pos <= 3 /\ cell pos b = 0.
Proof.
  unfold space. rewrite !elem_of_app, !elem_of_if_singleton, !Z.eqb_eq. split.
  - intros [[H ->] | [[H ->] | [[H ->] | [H ->]]]]; cbn [cell]; lia.
  - intros [Hp Hc]. four_cases pos; cbn [cell] in Hc; auto 6.
Qed.

Lemma space_nil (b : board) : space b = [] <-> 0 ∉ cells b.
Proof.
  unfold cells. rewrite !not_elem_of_cons. split.
  - intros Hnil. repeat split; try apply not_elem_of_nil; intros He.
    + assert (H : 0 ∈ space b) by (apply space_spec; cbn; lia). rewrite Hnil in H. now apply elem_of_nil in H.
    + assert (H : 1 ∈ space b) by (apply space_spec; cbn; lia). rewrite Hnil in H. now apply elem_of_nil in H.
    + assert (H : 2 ∈ space b) by (apply space_spec; cbn; lia). rewrite Hnil in H. now apply elem_of_nil in H.
    + assert (H : 3 ∈ space b) by (apply space_spec; cbn; lia). rewrite Hnil in H. now apply elem_of_nil in H.
  - intros (H0 & H1 & H2 & H3 & _). unfold space.
    destruct (Z.eqb_spec (t00 b) 0), (Z.eqb_spec (t01 b) 0),
             (Z.eqb_spec (t10 b) 0), (Z.eqb_spec (t11 b) 0);
      solve [reflexivity | congruence].
Qed.

Lemma next_place (rand1 rand2 : Z) (b : board) :
  next rand1 rand2 b =
  match space b with
  | [] => b
  | _ => place (nth (Z.to_nat (Z.rem rand1 (Z.of_nat (length (space b))))) (space b) 0)
               (if Z.rem rand2 10 =? 0 then 2 else 1) b
  end.
Proof.
  unfold next. fold (space b).
  destruct (space b) as [|p l] eqn:Hs; [reflexivity|].
  destruct (Z.eqb_spec (Z.of_nat (length (p :: l))) 0) as [H|_]; [cbn in H; lia|].
  reflexivity.
Qed.

Lemma next_fills (rand1 rand2 : Z) (b : board) :
  0 ∈ cells b ->
  exists pos, 0 <= pos <= 3 /\ cell pos b = 0 /\
    next rand1 rand2 b = place pos (if Z.rem rand2 10 =? 0 then 2 else 1) b.
Proof.
  rewrite next_place. intros Hin. destruct (space b) as [|p l] eqn:Hs;
    [exfalso; now apply (proj1 (space_nil b))|]. rewrite <- Hs.
  set (pos := nth _ (space b) 0).
  assert (Hpos : pos ∈ space b).
  { apply list_elem_of_In, nth_In.
    assert (0 < Z.of_nat (length (space b))) by (rewrite Hs; cbn; lia).
    pose proof (Z.rem_bound_abs rand1 (Z.of_nat (length (space b))) ltac:(lia)). lia. }
  apply space_spec in Hpos as [Hp Hc].
  exists pos. split; [exact Hp|]. split; [exact Hc | reflexivity].
Qed.

(** X12. [next] on a board with an empty cell writes rank 1, or rank 2
    when the second draw is a multiple of 10, into one cell that was
    empty, and leaves the three other cells alone; on a full board it
    does nothing. This holds for every pair of draws. *)
Theorem next_spec (rand1 rand2 : Z) (b : board) :
  (0 ∈ cells b ->
   exists pos, 0 <= pos <= 3 /\ cell pos b = 0 /\
     next rand1 rand2 b = place pos (if Z.rem rand2 10 =? 0 then 2 else 1) b /\
     cell pos (next rand1 rand2 b) = (if Z.rem rand2 10 =? 0 then 2 else 1) /\
     forall q, 0 <= q <= 3 -> q <> pos -> cell q (next rand1 rand2 b) = cell q b) /\
  (0 ∉ cells b -> next rand1 rand2 b = b).
Proof.
  split.
  - intros Hin. destruct (next_fills rand1 rand2 b Hin) as (pos & Hp & Hc & ->).
    exists pos. split; [exact Hp|]. split; [exact Hc|]. split; [reflexivity|].
    generalize (if Z.rem rand2 10 =? 0 then 2 else 1). intros pop. split.
    + four_cases pos; reflexivity.
    + intros q Hq Hne. four_cases pos; four_cases q; try reflexivity; lia.
  - intros Hfull. rewrite next_place. apply space_nil in Hfull. now rewrite Hfull.
Qed.

Lemma next_spec_witness : next 7 10 (Board 1 2 3 4) = Board 1 2 3 4.
Proof.
  apply (next_spec 7 10 (Board 1 2 3 4)). unfold cells. cbn [t00 t01 t10 t11].
  rewrite !not_elem_of_cons. repeat split; try discriminate. apply not_elem_of_nil.
Defined.

Lemma place_face (pos pop : Z) (b : board) :
  cell pos b = 0 -> face (place pos pop b) = face b + tile_value pop.
Proof.
  destruct b as [a0 a1 a2 a3]. unfold face.
  destruct pos as [|[[?|?|]|[?|?|]|]|?]; cbn [cell place t00 t01 t10 t11];
    intros ->; change (tile_value 0) with 0; ring.
Qed.

Lemma place_space (pos pop : Z) (b : board) :
  0 <= pos <= 3 -> cell pos b = 0 -> pop <> 0 ->
  S (length (space (place pos pop b))) = length (space b).
Proof.
  intros Hp Hc Hpop. destruct b as [a0 a1 a2 a3]. unfold space.
  four_cases pos; cbn [cell place t00 t01 t10 t11] in *; subst;
    destruct (Z.eqb_spec pop 0); try contradiction; cbn [Z.eqb];
    rewrite !length_app; cbn [length]; lia.
Qed.

(** X13. When the board has an empty cell, [next] adds a face value of 2
    or 4 and fills exactly one empty cell; it keeps the ranks within the
    table's range. *)
Theorem next_effect (rand1 rand2 : Z) (b : board) :
  0 ∈ cells b ->
  (face (next rand1 rand2 b) = face b + 2 \/ face (next rand1 rand2 b) = face b + 4) /\
  S (length (space (next rand1 rand2 b))) = length (space b) /\
  (table_ok b -> table_ok (next rand1 rand2 b)) /\
  (board_ok b -> board_ok (next rand1 rand2 b)).
Proof.
  intros Hin.
  destruct (next_fills rand1 rand2 b Hin) as (pos & Hp & Hc & ->).
  assert (Hpop : (if Z.rem rand2 10 =? 0 then 2 else 1) = 1 \/
                 (if Z.rem rand2 10 =? 0 then 2 else 1) = 2)
    by (destruct (_ =? _); auto).
  revert Hpop. generalize (if Z.rem rand2 10 =? 0 then 2 else 1). intros pop Hpop.
  split; [|split; [|split]].
  - rewrite place_face by exact Hc. destruct Hpop as [-> | ->]; [left | right]; reflexivity.
  - apply place_space; [exact Hp | exact Hc | lia].
  - unfold table_ok, digit_ok. destruct b as [a0 a1 a2 a3].
    four_cases pos; cbn [place t00 t01 t10 t11]; lia.
  - unfold board_ok, rank_ok. destruct b as [a0 a1 a2 a3].
    four_cases pos; cbn [place t00 t01 t10 t11]; lia.
Qed.

Lemma next_effect_witness :
  S (length (space (next 5 3 (Board 1 0 0 2)))) = length (space (Board 1 0 0 2)).
Proof.
  apply (next_effect 5 3 (Board 1 0 0 2)). unfold cells. cbn [t00 t01 t10 t11].
  rewrite !elem_of_cons. auto.
Defined.

(** ** More on the weight table *)

(** X14. The table index is a base-6 numeral of the four ranks: when
    they are at most 5 each rank is read back from the index, so that two
    different boards never share an entry. *)
Theorem V_index_digits (a b : board) :
  table_ok a -> table_ok b ->
  a = Board (V_index a / 216) (V_index a / 36 mod 6) (V_index a / 6 mod 6) (V_index a mod 6) /\
  (V_index a = V_index b -> a = b).
Proof.
  intros Ha Hb. split.
  - revert Ha. unfold table_ok, digit_ok, V_index. destruct a as [a0 a1 a2 a3].
    cbn [t00 t01 t10 t11]. intros (?&?&?&?).
    f_equal; Z.to_euclidean_division_equations; lia.
  - intros He. apply V_index_inj; [exact Ha | exact Hb | now rewrite He].
Qed.

Lemma V_index_digits_witness :
  Board 1 2 3 4 = Board (V_index (Board 1 2 3 4) / 216) (V_index (Board 1 2 3 4) / 36 mod 6)
                        (V_index (Board 1 2 3 4) / 6 mod 6) (V_index (Board 1 2 3 4) mod 6).
Proof.
  apply (V_index_digits (Board 1 2 3 4) (Board 1 2 3 4));
    unfold table_ok, digit_ok; cbn; lia.
Defined.

(** X15. After [V(b) += upd] on a table of 1296 entries, reading [V(b)]
    gives the old value plus [upd], and reading any other board whose
    ranks are at most 5 gives what it gave before. *)
Theorem V_add_read_back (weight : list float) (b c : board) (upd : float) :
  length weight = weight_size -> table_ok b -> table_ok c ->
  exists u weight',
    V weight b = Some u /\
    V_add weight b upd = Some weight' /\
    length weight' = weight_size /\
    V weight' b = Some (fadd u upd) /\
    (c <> b -> V weight' c = V weight c).
Proof.
  intros Hlen Hb Hc.
  destruct (V_in_bounds weight b Hlen Hb) as [HVb [u Hu]].
  destruct (V_add_in_bounds weight b upd Hlen Hb) as (weight' & Hadd & Hlen').
  destruct (V_add_lookup weight weight' b upd Hlen Hb Hadd) as [_ Hlook].
  exists u, weight'. split; [exact Hu|]. split; [exact Hadd|]. split; [exact Hlen'|].
  split.
  - rewrite (proj1 (V_in_bounds weight' b Hlen' Hb)), Hlook.
    rewrite decide_True by reflexivity. now rewrite <- HVb, Hu.
  - intros Hne.
    rewrite (proj1 (V_in_bounds weight' c Hlen' Hc)), (proj1 (V_in_bounds weight c Hlen Hc)).
    rewrite Hlook. apply decide_False. intros He. apply Hne.
    now apply V_index_inj.
Qed.

Lemma V_add_read_back_witness :
  exists u weight',
    V weight_init (Board 1 0 0 0) = Some u /\
    V_add weight_init (Board 1 0 0 0) alpha = Some weight' /\
    V weight' (Board 1 0 0 0) = Some (fadd u alpha).
Proof.
  destruct (V_add_read_back weight_init (Board 1 0 0 0) (Board 0 0 0 0) alpha)
    as (u & weight' & H1 & H2 & _ & H3 & _);
    [reflexivity | unfold table_ok, digit_ok; cbn; lia | unfold table_ok, digit_ok; cbn; lia |].
  exists u, weight'. auto.
Defined.

(** X16. [train_isomorphic] changes the table at no more than seven
    places: every entry that differs afterwards is the entry of one of
    the seven boards that [isomorphic] can produce. *)
Theorem train_isomorphic_touches_seven (weight weight' : list float) (b : board)
    (upd : float) (k : nat) :
  length weight = weight_size -> table_ok b ->
  train_isomorphic weight b upd = Some weight' ->
  weight' !! k <> weight !! k ->
  k ∈ (fun c => Z.to_nat (V_index c)) <$> seven b.
Proof.
  intros Hlen Hok Htrain Hdiff.
  destruct (train_isomorphic_spec weight b upd Hlen Hok) as (w' & Hrun & _ & Hk).
  assert (w' = weight') as -> by congruence.
  destruct (Hk k) as [_ Hno].
  destruct (decide (k ∈ (fun c => Z.to_nat (V_index c)) <$> seven b)) as [Hin | Hout];
    [exact Hin|].
  exfalso. apply Hdiff, Hno. intros (i & _ & ->). apply Hout.
  apply list_elem_of_fmap. exists (variant b i). split; [reflexivity|].
  apply isomorphic_in_seven.
Qed.

Lemma train_isomorphic_touches_seven_witness :
  216%nat ∈ (fun c => Z.to_nat (V_index c)) <$> seven (Board 1 0 0 0).
Proof.
  destruct (train_isomorphic weight_init (Board 1 0 0 0) alpha) as [weight'|] eqn:Ht;
    [|vm_compute in Ht; discriminate Ht].
  apply (train_isomorphic_touches_seven weight_init weight' (Board 1 0 0 0) alpha);
    [reflexivity | unfold table_ok, digit_ok; cbn; lia | exact Ht |].
  vm_compute in Ht. apply (inj Some) in Ht. rewrite <- Ht. vm_compute. discriminate.
Defined.

(** ** More on the evaluation loop *)

Lemma evaluate_op_cases (weight : list float) (b : board) (k : nat) :
  (k < 4)%nat ->
  evaluate_op weight (scored_at weight b k) k =
  if legal b k
  then match V weight (afterstate b k) with
       | Some _ => Some (scored_at weight b (S k))
       | None => None
       end
  else Some (scored_at weight b (S k)).
Proof.
  intros Hk. unfold evaluate_op, scored_at. cbn [ev_a ev_r ev_v ev_x].
  rewrite frontier_lookup_next.
  replace ([b; b; b; b] !! k) with (Some b)
    by (destruct k as [|[|[|[|]]]]; try reflexivity; lia).
  cbn [mbind option_bind].
  pose proof (eq_refl : reward b k = fst (move (Z.of_nat k) b)) as Hr.
  pose proof (eq_refl : afterstate b k = snd (move (Z.of_nat k) b)) as Ha.
  pose proof (eq_refl : legal b k = negb (reward b k =? -1)) as Hl.
  destruct (move (Z.of_nat k) b) as [rw b']. cbn [fst snd] in Hr, Ha.
  rewrite <- Hr, <- Ha.
  rewrite (frontier_insert (afterstate b) [b; b; b; b] k) by (cbn; lia).
  rewrite (frontier_insert (reward b) r_init k) by (cbn; lia).
  destruct (reward b k =? -1); cbn [negb] in Hl; rewrite Hl.
  - f_equal. f_equal.
    + apply frontier_keep. unfold v_entry. rewrite Hl.
      destruct k as [|[|[|[|]]]]; try reflexivity; lia.
    + cbn [select]. now rewrite Hl.
  - destruct (V weight (afterstate b k)) as [u|] eqn:Hu; [|reflexivity].
    cbn [mbind option_bind].
    assert (Hv : fadd (float_of_int (reward b k)) u = v_entry weight b k).
    { unfold v_entry, candidate. rewrite Hl, Hu. reflexivity. }
    rewrite Hv.
    rewrite (frontier_insert (v_entry weight b) v_init k) by (cbn; lia).
    rewrite (frontier_lookup_done _ _ (S k) k) by lia. cbn [mbind option_bind].
    rewrite frontier_lookup_done by (pose proof (select_le weight b k); lia).
    cbn [mbind option_bind select]. rewrite Hl. reflexivity.
Qed.

Lemma evaluate_loop_cases (weight : list float) (b : board) (n k : nat) :
  (k + n = 4)%nat ->
  evaluate_loop weight (seq k n) (scored_at weight b k) =
  if forallb (fun op => negb (legal b op) || bool_decide (is_Some (V weight (afterstate b op))))
             (seq k n)
  then Some (scored_at weight b 4) else None.
Proof.
  revert k. induction n as [|n IH]; intros k Hk.
  - cbn. replace k with 4%nat by lia. reflexivity.
  - cbn [seq evaluate_loop forallb]. rewrite evaluate_op_cases by lia.
    destruct (legal b k); cbn [negb orb andb].
    + destruct (V weight (afterstate b k)) as [u|].
      * rewrite bool_decide_true by eauto. cbn [mbind option_bind andb]. apply IH. lia.
      * rewrite bool_decide_false by (intros [? ?]; discriminate). reflexivity.
    + cbn [mbind option_bind]. apply IH. lia.
Qed.

Lemma evaluate_cases (weight : list float) (b : board) :
  evaluate weight b =
  if forallb (fun op => negb (legal b op) || bool_decide (is_Some (V weight (afterstate b op))))
             (seq 0 4)
  then Some (scored_at weight b 4) else None.
Proof. apply (evaluate_loop_cases weight b 4 0). reflexivity. Qed.

Lemma evaluate_Some (weight : list float) (b : board) (ev : scored) :
  evaluate weight b = Some ev ->
  ev = scored_at weight b 4 /\
  forall op, (op < 4)%nat -> legal b op = true -> is_Some (V weight (afterstate b op)).
Proof.
  rewrite evaluate_cases.
  destruct (forallb _ _) eqn:Hall; [|discriminate].
  intros [= <-]. split; [reflexivity|].
  intros op Hop Hl. rewrite List.forallb_forall in Hall.
  specialize (Hall op ltac:(apply in_seq; lia)). rewrite Hl in Hall.
  cbn [negb orb] in Hall. now apply bool_decide_eq_true in Hall.
Qed.

Lemma forallb_false {A : Type} (f : A -> bool) (l : list A) :
  forallb f l = false -> exists x, In x l /\ f x = false.
Proof.
  induction l as [|a l IH]; [discriminate|]. cbn [forallb].
  destruct (f a) eqn:Hfa; cbn [andb].
  - intros H. destruct (IH H) as (x & Hin & Hx). exists x. split; [now right | exact Hx].
  - intros _. exists a. split; [now left | exact Hfa].
Qed.

Lemma scored_at_arrays (weight : list float) (b : board) :
  ev_a (scored_at weight b 4) = afterstate b <$> seq 0 4 /\
  ev_r (scored_at weight b 4) = reward b <$> seq 0 4 /\
  ev_v (scored_at weight b 4) = v_entry weight b <$> seq 0 4.
Proof. unfold scored_at. cbn [ev_a ev_r ev_v drop]. now rewrite !app_nil_r. Qed.

(** X17. The evaluation fails exactly when a legal direction leads to a
    board outside the table (the read [V(a[op])] is then out of bounds).
    When it returns, [r] and [a] hold the result and the board of
    [move] for each of the four directions. *)
Theorem evaluate_outcome (weight : list float) (b : board) :
  (evaluate weight b = None <->
   exists op, (op < 4)%nat /\ legal b op = true /\ V weight (afterstate b op) = None) /\
  (forall ev, evaluate weight b = Some ev ->
     ev_r ev = (fun op => fst (move (Z.of_nat op) b)) <$> seq 0 4 /\
     ev_a ev = (fun op => snd (move (Z.of_nat op) b)) <$> seq 0 4).
Proof.
  split.
  - rewrite evaluate_cases. destruct (forallb _ _) eqn:Hall.
    + split; [discriminate|]. intros (op & Hop & Hl & HV).
      rewrite List.forallb_forall in Hall.
      specialize (Hall op ltac:(apply in_seq; lia)). rewrite Hl in Hall.
      cbn [negb orb] in Hall. apply bool_decide_eq_true in Hall as [u Hu]. congruence.
    + split; [intros _|reflexivity].
      apply forallb_false in Hall as (op & Hop & Hf). apply in_seq in Hop.
      exists op. split; [lia|].
      destruct (legal b op); [|discriminate Hf]. split; [reflexivity|].
      cbn [negb orb] in Hf. apply bool_decide_eq_false in Hf.
      destruct (V weight (afterstate b op)); [|reflexivity].
      exfalso. apply Hf. eauto.
  - intros ev Hev. apply evaluate_Some in Hev as [-> _].
    destruct (scored_at_arrays weight b) as (Ha & Hr & _). now rewrite Ha, Hr.
Qed.

Lemma select_zero_or_legal (weight : list float) (b : board) (k : nat) :
  select weight b k = 0%nat \/ legal b (select weight b k) = true.
Proof.
  induction k as [|k IH]; [now left|]. cbn [select].
  destruct (legal b k) eqn:Hl; cbn [andb]; [|exact IH].
  destruct (fgt _ _); [right; exact Hl | exact IH].
Qed.

(** X18. The selected [x] is direction 0 or a legal direction, for any
    table: the entries [v[1..3]], which start at 0 rather than at
    [-FLT_MAX], are never taken for the selected value unless they were
    assigned. What the forward block reads at [x] is the candidate of a
    legal direction, or [r[x] = -1] together with [v[0] = -FLT_MAX]. *)
Theorem selected_zero_or_legal (weight : list float) (b : board) (ev : scored) :
  evaluate weight b = Some ev ->
  (ev_x ev < 4)%nat /\
  ((legal b (ev_x ev) = true /\
    ev_r ev !! ev_x ev = Some (reward b (ev_x ev)) /\
    ev_v ev !! ev_x ev = candidate weight b (ev_x ev)) \/
   (ev_x ev = 0%nat /\ ev_r ev !! 0%nat = Some (-1) /\
    ev_v ev !! 0%nat = Some (fneg FLT_MAX))).
Proof.
  intros Hev. apply evaluate_Some in Hev as [-> Hread].
  change (ev_x (scored_at weight b 4)) with (select weight b 4).
  assert (Hx : (select weight b 4 < 4)%nat)
    by (pose proof (select_le weight b 4); cbn in *; lia).
  split; [exact Hx|].
  destruct (scored_at_lookup weight b _ Hx) as (Hr & _ & Hv).
  destruct (legal b (select weight b 4)) eqn:Hl.
  - left. split; [reflexivity|]. split; [exact Hr|].
    rewrite Hv. symmetry. apply v_entry_candidate; auto.
  - right. destruct (select_zero_or_legal weight b 4) as [H0 | H1]; [|congruence].
    rewrite H0 in *. split; [reflexivity|]. rewrite Hr, Hv. split.
    + f_equal. unfold legal in Hl. destruct (Z.eqb_spec (reward b 0) (-1)); [assumption | discriminate].
    + unfold v_entry. rewrite Hl. reflexivity.
Qed.

Lemma selected_zero_or_legal_witness :
  (ev_x (scored_at weight_init (Board 2 4 1 2) 4) < 4)%nat.
Proof.
  apply (selected_zero_or_legal weight_init (Board 2 4 1 2)). reflexivity.
Defined.

(** ** More on the learning controller *)

Lemma reach_closed_true : reach_closed = true.
Proof. vm_compute. reflexivity. Qed.

Lemma memZ_In (v : Z) (l : list Z) : memZ v l = true <-> In v l.
Proof.
  unfold memZ. rewrite existsb_exists. split.
  - intros (x & Hin & He). apply Z.eqb_eq in He. now subst.
  - intros Hin. exists v. split; [exact Hin | apply Z.eqb_refl].
Qed.

Lemma table_okb_spec (b : board) : table_okb b = true <-> table_ok b.
Proof.
  unfold table_okb, table_ok, digit_ok, cells. cbn [forallb].
  rewrite !andb_true_iff, !Z.leb_le. tauto.
Qed.

Lemma operator_int_assign (v : Z) :
  0 <= v < 65536 -> operator_int (operator_assign v) = v.
Proof.
  intros Hv. rewrite operator_assign_cells. unfold operator_int; cbn [t00 t01 t10 t11].
  Z.div_mod_to_equations. lia.
Qed.

Lemma next_in_spawns (rand1 rand2 : Z) (b : board) :
  0 ∈ cells b -> next rand1 rand2 b ∈ spawns b.
Proof.
  intros Hin. destruct (next_fills rand1 rand2 b Hin) as (pos & Hp & Hc & ->).
  unfold spawns. apply list_elem_of_bind. exists pos. split; [|now apply space_spec].
  apply list_elem_of_bind.
  exists (if Z.rem rand2 10 =? 0 then 2 else 1). split; [apply list_elem_of_singleton; reflexivity|].
  destruct (_ =? _); rewrite !elem_of_cons; auto.
Qed.

Lemma spawns_spec (b b1 : board) :
  b1 ∈ spawns b ->
  exists pos pop, 0 <= pos <= 3 /\ cell pos b = 0 /\ (pop = 1 \/ pop = 2) /\
                  b1 = place pos pop b.
Proof.
  unfold spawns. intros H. apply list_elem_of_bind in H as (pos & H & Hpos).
  apply list_elem_of_bind in H as (pop & H & Hpop).
  apply list_elem_of_singleton in H. apply space_spec in Hpos as [Hp Hc].
  exists pos, pop. rewrite !elem_of_cons, elem_of_nil in Hpop.
  repeat split; try assumption; tauto.
Qed.

Lemma spawns_face (b b1 : board) :
  b1 ∈ spawns b -> face b + 2 <= face b1 /\ (board_ok b -> board_ok b1).
Proof.
  intros H. apply spawns_spec in H as (pos & pop & Hp & Hc & Hpop & ->).
  rewrite place_face by exact Hc. split.
  - destruct Hpop as [-> | ->]; change (tile_value 1) with 2; change (tile_value 2) with 4; lia.
  - unfold board_ok, rank_ok. destruct b as [a0 a1 a2 a3].
    four_cases pos; cbn [place t00 t01 t10 t11]; lia.
Qed.

Lemma head_ok_empty : head_ok board_empty.
Proof.
  split; [unfold board_ok, rank_ok; cbn; lia|].
  pose proof reach_closed_true as H. unfold reach_closed in H.
  apply andb_true_iff in H as [H _]. exact H.
Qed.

(** What the closure check gives at a board of the set. *)
Lemma head_ok_step (a b1 : board) :
  head_ok a -> b1 ∈ spawns a ->
  table_ok b1 /\ face b1 <= 60 /\
  forall op, (op < 4)%nat -> legal b1 op = true ->
    head_ok (afterstate b1 op) /\ table_ok (afterstate b1 op).
Proof.
  intros [Hok Hmem] Hb1.
  pose proof reach_closed_true as H. unfold reach_closed in H.
  apply andb_true_iff in H as [_ H]. rewrite List.forallb_forall in H.
  specialize (H _ (proj1 (memZ_In _ _) Hmem)). unfold head_check in H.
  cbn zeta in H. rewrite !andb_true_iff in H. destruct H as ((((_ & _) & _) & _) & H).
  replace (operator_assign (operator_int a)) with a in H
    by (apply operator_int_inj; [exact Hok | apply operator_assign_ok |];
        symmetry; apply operator_int_assign;
        revert Hok; unfold board_ok, rank_ok, operator_int; lia).
  rewrite List.forallb_forall in H.
  specialize (H b1 (proj1 (list_elem_of_In _ _) Hb1)).
  rewrite !andb_true_iff in H. destruct H as ((Ht & Hf) & Hops).
  apply table_okb_spec in Ht. apply Z.leb_le in Hf.
  split; [exact Ht|]. split; [exact Hf|].
  intros op Hop Hl. rewrite List.forallb_forall in Hops.
  specialize (Hops op ltac:(apply in_seq; lia)). rewrite Hl in Hops.
  cbn [negb orb] in Hops. apply andb_true_iff in Hops as [Hm Ht'].
  apply table_okb_spec in Ht'.
  split; [split; [now apply table_ok_board_ok | exact Hm] | exact Ht'].
Qed.

Lemma head_ok_room (a : board) : head_ok a -> 0 ∈ cells a.
Proof.
  intros [Hok Hmem].
  pose proof reach_closed_true as H. unfold reach_closed in H.
  apply andb_true_iff in H as [_ H]. rewrite List.forallb_forall in H.
  specialize (H _ (proj1 (memZ_In _ _) Hmem)). unfold head_check in H.
  cbn zeta in H. rewrite !andb_true_iff in H. destruct H as ((((_ & _) & Hs) & _) & _).
  replace (operator_assign (operator_int a)) with a in Hs
    by (apply operator_int_inj; [exact Hok | apply operator_assign_ok |];
        symmetry; apply operator_int_assign;
        revert Hok; unfold board_ok, rank_ok, operator_int; lia).
  destruct (decide (0 ∈ cells a)) as [Hin | Hout]; [exact Hin|].
  apply space_nil in Hout. rewrite Hout in Hs. discriminate Hs.
Qed.

(** *** The playing loop *)

Lemma V_add_length (weight weight' : list float) (b : board) (upd : float) :
  V_add weight b upd = Some weight' -> length weight' = length weight.
Proof.
  unfold V_add. destruct (V weight b); [|discriminate]. cbn.
  intros [= <-]. apply length_insert.
Qed.

Lemma train_loop_length (b : board) (upd : float) (ks : list nat) :
  forall trained weight weight',
  train_loop b upd ks trained weight = Some weight' -> length weight' = length weight.
Proof.
  induction ks as [|i ks IH]; intros trained weight weight'; cbn [train_loop].
  - now intros [= <-].
  - case_bool_decide; [apply IH|].
    destruct (V_add weight _ upd) as [w1|] eqn:Hadd; [|discriminate].
    cbn [mbind option_bind]. intros Hrun. apply IH in Hrun.
    now rewrite Hrun, (V_add_length _ _ _ _ Hadd).
Qed.

Lemma forward_update_length (cfg : config) (weight weight' : list float)
    (hist : list board) (ev : scored) :
  forward_update cfg weight hist ev = Some weight' -> length weight' = length weight.
Proof.
  unfold forward_update. destruct (_ && _); [|now intros [= <-]].
  destruct (forward_target ev); [|discriminate]. cbn [mbind option_bind].
  destruct (hist !! _); [|discriminate]. cbn [mbind option_bind].
  destruct (V weight _); [|discriminate]. cbn [mbind option_bind].
  apply train_loop_length.
Qed.

(** What one iteration of the playing loop returns, when it returns. *)
Lemma play_step_Some (cfg : config) (rand1 rand2 : Z) (st st' : learner)
    (b : board) (res : option board) :
  play_step cfg rand1 rand2 st b = Some (st', res) ->
  let b1 := next rand1 rand2 b in
  let x := select (weight st) b1 4 in
  (x < 4)%nat /\
  length (weight st') = length (weight st) /\
  (forward cfg = false -> weight st' = weight st) /\
  ((legal b1 x = false /\ res = None /\
    history st' = history st ++ [b1] /\ actions st' = actions st) \/
   (legal b1 x = true /\ res = Some (afterstate b1 x) /\
    history st' = (history st ++ [b1]) ++ [afterstate b1 x] /\
    actions st' = actions st ++ [x])).
Proof.
  intros H b1 x. unfold play_step in H. cbv zeta in H. fold b1 in H.
  destruct (evaluate (weight st) b1) as [ev|] eqn:Hev; [|discriminate].
  apply evaluate_Some in Hev as [-> _]. cbn [mbind option_bind] in H.
  destruct (forward_update cfg (weight st) (history st ++ [b1]) _) as [w'|] eqn:Hup;
    [|discriminate].
  cbn [mbind option_bind] in H.
  change (ev_x (scored_at (weight st) b1 4)) with x in H.
  assert (Hx : (x < 4)%nat) by (subst x; pose proof (select_le (weight st) b1 4); cbn in *; lia).
  destruct (scored_at_lookup (weight st) b1 x Hx) as (Hr & Ha & _).
  rewrite Hr, Ha in H. cbn [mbind option_bind] in H.
  split; [exact Hx|].
  assert (Hlen : length w' = length (weight st)) by now apply forward_update_length in Hup.
  assert (Hoff : forward cfg = false -> w' = weight st).
  { intros Hf. unfold forward_update in Hup. rewrite Hf in Hup. cbn in Hup. congruence. }
  unfold legal. destruct (reward b1 x =? -1); cbn [negb].
  - injection H as <- <-. cbn [weight history actions]. auto 10.
  - injection H as <- <-. cbn [weight history actions]. auto 10.
Qed.

Lemma last_after_cons (prev : board) (s : step) (rest : list step) :
  last_after prev (s :: rest) = last_after (after s) rest.
Proof.
  unfold last_after. destruct rest as [|s0 rest]; [reflexivity|].
  rewrite last_cons_cons.
  destruct (proj2 (last_is_Some (s0 :: rest)) ltac:(discriminate)) as [s1 ->].
  reflexivity.
Qed.

Lemma linked_snoc (prev : board) (steps : list step) (s : step) :
  linked prev steps ->
  before s ∈ spawns (last_after prev steps) -> (action s < 4)%nat ->
  legal (before s) (action s) = true ->
  after s = afterstate (before s) (action s) ->
  linked prev (steps ++ [s]) /\ last_after prev (steps ++ [s]) = after s.
Proof.
  intros Hl Hb Ha Hleg Hafter. split; [|unfold last_after; now rewrite last_snoc].
  revert prev Hl Hb. induction steps as [|s0 steps IH]; intros prev Hl Hb.
  - cbn. auto.
  - rewrite last_after_cons in Hb. cbn [app linked] in *.
    destruct Hl as (H1 & H2 & H3 & H4 & H5).
    repeat split; try assumption. now apply IH.
Qed.

Lemma empty_room : 0 ∈ cells board_empty.
Proof.
  assert (cells board_empty = [0; 0; 0; 0]) as -> by reflexivity.
  rewrite elem_of_cons. now left.
Qed.

Lemma play_linked (cfg : config) (rands : list (Z * Z)) :
  forall (st st' : learner) (b start : board) (steps : list step),
  history st = history_of steps -> actions st = actions_of steps ->
  linked start steps -> b = last_after start steps -> 0 ∈ cells b ->
  play cfg rands st b = Some st' ->
  length (weight st') = length (weight st) /\
  (forward cfg = false -> weight st' = weight st) /\
  exists steps' terminal,
    history st' = history_of steps' ++ [terminal] /\
    actions st' = actions_of steps' /\
    linked start steps' /\ terminal ∈ spawns (last_after start steps').
Proof.
  induction rands as [|[rand1 rand2] rands IH];
    intros st st' b start steps Hh Ha Hl Hb Hroom Hplay; [discriminate Hplay|].
  cbn [play] in Hplay.
  destruct (play_step cfg rand1 rand2 st b) as [[st1 res]|] eqn:Hstep; [|discriminate].
  cbn [mbind option_bind] in Hplay.
  apply play_step_Some in Hstep. cbn zeta in Hstep.
  destruct Hstep as (Hx & Hlen & Hoff & [(Hleg & -> & Hh1 & Ha1) | (Hleg & -> & Hh1 & Ha1)]).
  - injection Hplay as <-. split; [exact Hlen|]. split; [exact Hoff|].
    exists steps, (next rand1 rand2 b). rewrite Hh1, Ha1, Hh, Ha.
    repeat split; try assumption. rewrite <- Hb. now apply next_in_spawns.
  - set (b1 := next rand1 rand2 b) in *. set (x := select (weight st) b1 4) in *.
    destruct (linked_snoc start steps (Step b1 x (afterstate b1 x)) Hl) as [Hl' Hlast];
      cbn [before action after]; try assumption; try reflexivity.
    { rewrite <- Hb. now apply next_in_spawns. }
    apply (IH st1 st' _ start (steps ++ [Step b1 x (afterstate b1 x)])) in Hplay.
    + destruct Hplay as (Hlen' & Hoff' & Hex). split; [congruence|].
      split; [intros Hf; rewrite Hoff', Hoff by exact Hf; reflexivity | exact Hex].
    + rewrite Hh1, history_of_snoc, Hh, <- app_assoc. reflexivity.
    + rewrite Ha1. unfold actions_of. now rewrite fmap_app, Ha.
    + exact Hl'.
    + now rewrite Hlast.
    + apply (move_leaves_room (Z.of_nat x) b1); [lia|].
      unfold legal, reward in Hleg. destruct (Z.eqb_spec (fst (move (Z.of_nat x) b1)) (-1));
        [discriminate | assumption].
Qed.

(** X19. Whatever the table and the random draws, the vectors that the
    playing loop leaves record a game played by the rules: each
    before-state is the previous afterstate (the empty board at first)
    with one tile of rank 1 or 2 inserted in an empty cell, each action
    is one of the four directions and legal on its before-state, each
    afterstate is the board that the move leaves, and the history ends
    with one more insertion. *)
Theorem play_follows_rules (cfg : config) (rands : list (Z * Z))
    (weight0 : list float) (st : learner) :
  play cfg rands (Learner weight0 [] []) board_empty = Some st ->
  exists steps terminal,
    history st = history_of steps ++ [terminal] /\
    actions st = actions_of steps /\
    linked board_empty steps /\
    terminal ∈ spawns (last_after board_empty steps) /\
    length (history st) = (2 * length (actions st) + 1)%nat.
Proof.
  intros Hplay.
  apply (play_linked cfg rands _ _ _ board_empty []) in Hplay;
    try reflexivity; [|exact empty_room].
  destruct Hplay as (_ & _ & steps & terminal & Hh & Ha & Hl & Ht).
  exists steps, terminal. repeat split; try assumption.
  rewrite Hh, Ha, length_app, history_of_length. unfold actions_of.
  rewrite length_fmap. cbn. lia.
Qed.

Lemma play_follows_rules_witness :
  exists steps terminal,
    [Board 1 0 0 0; Board 0 1 0 0; Board 2 1 0 0; Board 0 0 2 1; Board 1 0 2 1;
     Board 1 1 2 0; Board 1 1 2 1; Board 1 2 2 0; Board 1 2 2 1] =
      history_of steps ++ [terminal] /\
    [1; 2; 0; 0]%nat = actions_of steps /\
    linked board_empty steps /\
    terminal ∈ spawns (last_after board_empty steps) /\
    9%nat = (2 * 4 + 1)%nat.
Proof.
  apply (play_follows_rules (Config false false)
           [(0, 1); (0, 10); (0, 1); (0, 1); (0, 1)] weight_init
           (Learner weight_init
              [Board 1 0 0 0; Board 0 1 0 0; Board 2 1 0 0; Board 0 0 2 1; Board 1 0 2 1;
               Board 1 1 2 0; Board 1 1 2 1; Board 1 2 2 0; Board 1 2 2 1]
              [1; 2; 0; 0]%nat)).
  vm_compute. reflexivity.
Defined.

Lemma afterstate_face (b : board) (op : nat) :
  board_ok b -> face (afterstate b op) = face b.
Proof. apply move_face. Qed.

(** Along a game played by the rules from a board of the set, every
    board stays within the table, and every step adds at least 2 to the
    face value. *)
Lemma linked_within (steps : list step) :
  forall prev, head_ok prev -> linked prev steps ->
  Forall (fun b => table_ok b /\ face b <= 60) (history_of steps) /\
  head_ok (last_after prev steps) /\
  face prev + 2 * Z.of_nat (length steps) <= face (last_after prev steps).
Proof.
  induction steps as [|s rest IH]; intros prev Hprev Hl.
  - cbn. split; [constructor|]. split; [exact Hprev | unfold last_after; cbn; lia].
  - cbn [linked] in Hl. destruct Hl as (Hb & Hop & Hleg & Ha & Hrest).
    destruct (head_ok_step prev (before s) Hprev Hb) as (Ht & Hf60 & Hnext).
    destruct (Hnext _ Hop Hleg) as [Hhead Hta]. rewrite <- Ha in Hhead, Hta.
    destruct (IH _ Hhead Hrest) as (Hall & Hlast & Hface).
    assert (Hsame : face (after s) = face (before s))
      by (rewrite Ha; apply afterstate_face; now apply table_ok_board_ok).
    rewrite last_after_cons. split; [|split; [exact Hlast|]].
    + cbn [history_of flat_map app]. constructor; [split; [exact Ht | exact Hf60]|].
      constructor; [split; [exact Hta | lia]|]. exact Hall.
    + pose proof (proj1 (spawns_face _ _ Hb)) as Hf. cbn [length]. lia.
Qed.

Lemma play_within (cfg : config) (rands : list (Z * Z))
    (weight0 : list float) (st : learner) :
  play cfg rands (Learner weight0 [] []) board_empty = Some st ->
  Forall (fun b => table_ok b /\ face b <= 60) (history st) /\
  (length (actions st) <= 29)%nat /\
  length (history st) = (2 * length (actions st) + 1)%nat /\
  exists steps terminal,
    history st = history_of steps ++ [terminal] /\ actions st = actions_of steps /\
    Forall (fun s => table_ok (after s)) steps.
Proof.
  intros Hplay.
  apply (play_linked cfg rands _ _ _ board_empty []) in Hplay;
    try reflexivity; [|exact empty_room].
  destruct Hplay as (_ & _ & steps & terminal & Hh & Ha & Hl & Ht).
  destruct (linked_within steps _ head_ok_empty Hl) as (Hall & Hlast & Hface).
  destruct (head_ok_step _ _ Hlast Ht) as (Htt & Htf & _).
  pose proof (proj1 (spawns_face _ _ Ht)) as Hf.
  change (face board_empty) with 0 in Hface.
  assert (Hn : (length steps <= 29)%nat) by lia.
  assert (Hna : length (actions st) = length steps)
    by (rewrite Ha; unfold actions_of; apply length_fmap).
  split; [|split; [|split]].
  - rewrite Hh. apply Forall_app. split; [exact Hall|].
    constructor; [split; assumption | constructor].
  - lia.
  - rewrite Hh, length_app, history_of_length, Hna. cbn. lia.
  - exists steps, terminal. split; [exact Hh|]. split; [exact Ha|].
    clear -Hall. induction steps as [|s rest IH]; [constructor|].
    cbn [history_of flat_map app] in Hall.
    apply Forall_cons in Hall as [_ Hall]. apply Forall_cons in Hall as [[Hs _] Hall].
    constructor; [exact Hs | apply IH, Hall].
Qed.

(** X20. The boards of an episode never leave the weight table: whatever
    the table holds and whatever the draws, every board that the playing
    loop records has its four ranks in 0..5 (no 64-tile is ever made on
    the 2x2 board) and a face value of at most 60, so each of them is a
    valid index for [V]; and an episode has at most 29 moves. *)
Theorem play_within_table (cfg : config) (rands : list (Z * Z))
    (weight0 : list float) (st : learner) :
  play cfg rands (Learner weight0 [] []) board_empty = Some st ->
  Forall (fun b => table_ok b /\ face b <= 60 /\
                   (0 <= V_index b < Z.of_nat weight_size)) (history st) /\
  (length (actions st) <= 29)%nat /\ (length (history st) <= 59)%nat.
Proof.
  intros Hplay. destruct (play_within cfg rands weight0 st Hplay) as (Hall & Hn & Hlen & _).
  split; [|lia].
  eapply Forall_impl; [exact Hall|]. cbn beta. intros b [Ht Hf].
  split; [exact Ht|]. split; [exact Hf|].
  pose proof (V_index_bounds b Ht). change (Z.of_nat weight_size) with 1296. lia.
Qed.

Lemma play_within_table_witness :
  Forall (fun b => table_ok b /\ face b <= 60 /\
                   (0 <= V_index b < Z.of_nat weight_size))
    [Board 1 0 0 0; Board 0 1 0 0; Board 2 1 0 0; Board 0 0 2 1; Board 1 0 2 1;
     Board 1 1 2 0; Board 1 1 2 1; Board 1 2 2 0; Board 1 2 2 1] /\
  (4 <= 29)%nat /\ (9 <= 59)%nat.
Proof.
  apply (play_within_table (Config false false)
           [(0, 1); (0, 10); (0, 1); (0, 1); (0, 1)] weight_init
           (Learner weight_init
              [Board 1 0 0 0; Board 0 1 0 0; Board 2 1 0 0; Board 0 0 2 1; Board 1 0 2 1;
               Board 1 1 2 0; Board 1 1 2 1; Board 1 2 2 0; Board 1 2 2 1]
              [1; 2; 0; 0]%nat)).
  vm_compute. reflexivity.
Defined.

Lemma head_ok_table (a : board) : head_ok a -> table_ok a /\ face a <= 58.
Proof.
  intros Ha. pose proof (head_ok_room a Ha) as Hroom.
  pose proof (next_in_spawns 0 0 a Hroom) as Hs.
  destruct (head_ok_step a _ Ha Hs) as (Ht & Hf & _).
  pose proof (proj1 (spawns_face _ _ Hs)) as Hface. split; [|lia].
  destruct (spawns_spec _ _ Hs) as (pos & pop & Hp & Hc & Hpop & He).
  rewrite He in Ht. clear -Ht Hp Hc. destruct a as [a0 a1 a2 a3].
  unfold table_ok, digit_ok in *.
  four_cases pos; cbn [cell place t00 t01 t10 t11] in *; subst; lia.
Qed.

(** From a board of the set and with a table of full size, one iteration
    of the playing loop runs without a failing read. *)
Lemma play_step_total (cfg : config) (rand1 rand2 : Z) (st : learner) (b : board) :
  head_ok b -> length (weight st) = weight_size ->
  history st = [] \/ last (history st) = Some b ->
  is_Some (play_step cfg rand1 rand2 st b).
Proof.
  intros Hb Hlen Hhist. unfold play_step. cbv zeta.
  set (b1 := next rand1 rand2 b).
  assert (Hs : b1 ∈ spawns b) by (apply next_in_spawns, head_ok_room, Hb).
  destruct (head_ok_step b b1 Hb Hs) as (Ht1 & _ & Hnext).
  assert (Hev : evaluate (weight st) b1 = Some (scored_at (weight st) b1 4)).
  { rewrite evaluate_cases.
    replace (forallb _ _) with true; [reflexivity|]. symmetry.
    apply List.forallb_forall. intros op Hop. apply in_seq in Hop.
    destruct (legal b1 op) eqn:Hl; [|reflexivity]. cbn [negb orb].
    apply bool_decide_eq_true.
    apply (table_reads (weight st) b1 Hlen); [|lia | exact Hl].
    intros op' Hop' Hl'. now apply Hnext. }
  rewrite Hev. cbn [mbind option_bind].
  assert (Hup : is_Some (forward_update cfg (weight st) (history st ++ [b1])
                           (scored_at (weight st) b1 4))).
  { unfold forward_update. destruct (forward cfg); [|eexists; reflexivity]. cbn [andb].
    destruct Hhist as [-> | Hlast]; [eexists; reflexivity|].
    destruct (1 <? _)%nat; [|eexists; reflexivity].
    rewrite forward_target_scored. cbn [mbind option_bind].
    assert (Hprior : (history st ++ [b1]) !! (length (history st ++ [b1]) - 2)%nat = Some b).
    { rewrite last_lookup in Hlast.
      assert (history st <> []) by (intros He; rewrite He in Hlast; discriminate).
      assert (0 < length (history st))%nat by (destruct (history st); [congruence | cbn; lia]).
      rewrite length_app. cbn [length].
      replace (length (history st) + 1 - 2)%nat with (pred (length (history st))) by lia.
      rewrite lookup_app_l by lia. exact Hlast. }
    rewrite Hprior. cbn [mbind option_bind].
    destruct (head_ok_table b Hb) as [Htb _].
    destruct (V_in_bounds (weight st) b Hlen Htb) as [_ [u Hu]].
    rewrite Hu. cbn [mbind option_bind].
    destruct (train_isomorphic_spec (weight st) b
                (fmul alpha (fsub (if legal b1 (select (weight st) b1 4)
                                   then v_entry (weight st) b1 (select (weight st) b1 4)
                                   else fzero) u)) Hlen Htb) as (w' & Hw' & _).
    rewrite Hw'. eexists; reflexivity. }
  destruct Hup as [w' Hw']. rewrite Hw'. cbn [mbind option_bind].
  change (ev_x (scored_at (weight st) b1 4)) with (select (weight st) b1 4).
  assert (Hx : (select (weight st) b1 4 < 4)%nat)
    by (pose proof (select_le (weight st) b1 4); cbn in *; lia).
  destruct (scored_at_lookup (weight st) b1 _ Hx) as (Hr & Ha & _).
  rewrite Hr, Ha. cbn [mbind option_bind].
  destruct (_ =? _); eexists; reflexivity.
Qed.

(** The playing loop ends before the draws do when twice their number
    makes up for the face value still missing to 60. *)
Lemma play_total (cfg : config) (rands : list (Z * Z)) :
  forall (st : learner) (b : board),
  head_ok b -> length (weight st) = weight_size ->
  history st = [] \/ last (history st) = Some b ->
  60 <= 2 * Z.of_nat (length rands) + face b ->
  is_Some (play cfg rands st b).
Proof.
  induction rands as [|[rand1 rand2] rands IH]; intros st b Hb Hlen Hhist Hfuel.
  - destruct (head_ok_table b Hb) as [_ Hf]. cbn [length] in Hfuel. lia.
  - cbn [play].
    destruct (play_step_total cfg rand1 rand2 st b Hb Hlen Hhist) as [[st1 res] Hstep].
    rewrite Hstep. cbn [mbind option_bind].
    pose proof (play_step_Some _ _ _ _ _ _ _ Hstep) as Hres. cbv zeta in Hres.
    destruct Hres as (Hx & Hlen1 & _ & [(_ & -> & _) | (Hleg & -> & Hh1 & _)]);
      [eexists; reflexivity|].
    set (b1 := next rand1 rand2 b) in *.
    assert (Hs : b1 ∈ spawns b) by (apply next_in_spawns, head_ok_room, Hb).
    destruct (head_ok_step b b1 Hb Hs) as (Ht1 & _ & Hnext).
    destruct (Hnext _ Hx Hleg) as [Hhead _].
    apply IH.
    + exact Hhead.
    + congruence.
    + right. rewrite Hh1. apply last_snoc.
    + rewrite afterstate_face by now apply table_ok_board_ok.
      pose proof (proj1 (spawns_face _ _ Hs)). cbn [length] in Hfuel. lia.
Qed.

(** Draws beyond the end of the episode are not used. *)
Lemma play_surplus (cfg : config) (rands more : list (Z * Z)) :
  forall (st st' : learner) (b : board),
  play cfg rands st b = Some st' -> play cfg (rands ++ more) st b = Some st'.
Proof.
  induction rands as [|[rand1 rand2] rands IH]; intros st st' b Hplay; [discriminate Hplay|].
  cbn [app play] in *.
  destruct (play_step cfg rand1 rand2 st b) as [[st1 [b'|]]|]; cbn [mbind option_bind] in *;
    [now apply IH | exact Hplay | discriminate Hplay].
Qed.

Lemma play_runs (cfg : config) (rands : list (Z * Z)) (weight0 : list float) :
  length weight0 = weight_size -> (30 <= length rands)%nat ->
  exists st, play cfg rands (Learner weight0 [] []) board_empty = Some st /\
             length (weight st) = weight_size.
Proof.
  intros Hlen Hrands.
  destruct (play_total cfg rands (Learner weight0 [] []) board_empty) as [st Hplay];
    [exact head_ok_empty | exact Hlen | now left |
     change (face board_empty) with 0; lia |].
  exists st. split; [exact Hplay|].
  apply (play_linked cfg rands _ _ _ board_empty []) in Hplay as [Hl _];
    try reflexivity; [|exact empty_room]. cbn [weight] in Hl. congruence.
Qed.

Lemma episode_runs_to_end (cfg : config) (rands : list (Z * Z)) (weight0 : list float) :
  length weight0 = weight_size -> (30 <= length rands)%nat ->
  exists weight', episode cfg rands weight0 = Some weight' /\
                  length weight' = weight_size.
Proof.
  intros Hlen Hrands.
  destruct (play_runs cfg rands weight0 Hlen Hrands) as (st & Hplay & Hlen').
  unfold episode. rewrite Hplay. cbn [mbind option_bind].
  unfold backward_replay. destruct (backward cfg); [|exists (weight st); auto].
  destruct (play_within cfg rands weight0 st Hplay)
    as (_ & _ & _ & steps & terminal & Hh & Ha & Hok).
  rewrite Hh, Ha.
  destruct (history_of steps ++ [terminal]) eqn:Hnil;
    [now destruct (history_of steps)|]. rewrite <- Hnil. clear Hnil.
  rewrite removelast_snoc.
  rewrite backward_loop_refines by (rewrite history_of_length; lia).
  apply replay_spec_total; [exact Hlen'|]. now apply Forall_rev.
Qed.

(** X21. An episode always comes to an end, without a read or write
    outside the table: with a table of [6^4] entries and thirty pairs of
    draws, whatever their values and whatever the table holds, the
    playing loop reaches its [break] within thirty iterations, and the
    episode, backward replay included when it is switched on, returns a
    table of the same size. Draws in excess are not looked at. Nothing is
    said of the board at which the loop stops: it stops as soon as the
    selected direction is illegal. *)
Theorem episode_total (cfg : config) (rands more : list (Z * Z)) (weight0 : list float) :
  length weight0 = weight_size -> (30 <= length rands)%nat ->
  (exists st, play cfg rands (Learner weight0 [] []) board_empty = Some st /\
              length (weight st) = weight_size /\
              play cfg (rands ++ more) (Learner weight0 [] []) board_empty = Some st) /\
  (exists weight', episode cfg rands weight0 = Some weight' /\
                   length weight' = weight_size).
Proof.
  intros Hlen Hrands. split; [|now apply episode_runs_to_end].
  destruct (play_runs cfg rands weight0 Hlen Hrands) as (st & Hplay & Hlen').
  exists st. split; [exact Hplay|]. split; [exact Hlen'|]. now apply play_surplus.
Qed.

Lemma episode_total_witness :
  exists weight', episode default_config (replicate 30 (0, 1)) weight_init = Some weight' /\
                  length weight' = weight_size.
Proof.
  apply (episode_total default_config (replicate 30 (0, 1)) [] weight_init);
    [reflexivity | cbn; lia].
Defined.

(** X22. With [forward] off the playing loop only reads the table, and
    with both switches off so does the whole episode: it returns the
    table it was given. *)
Theorem switches_off (cfg : config) (rands : list (Z * Z)) (weight0 : list float) :
  forward cfg = false ->
  (forall st, play cfg rands (Learner weight0 [] []) board_empty = Some st ->
              weight st = weight0) /\
  (backward cfg = false -> length weight0 = weight_size -> (30 <= length rands)%nat ->
   episode cfg rands weight0 = Some weight0).
Proof.
  intros Hf.
  assert (Hplay : forall st, play cfg rands (Learner weight0 [] []) board_empty = Some st ->
                             weight st = weight0).
  { intros st Hplay.
    apply (play_linked cfg rands _ _ _ board_empty []) in Hplay as (_ & Hoff & _);
      try reflexivity; [|exact empty_room]. now apply Hoff. }
  split; [exact Hplay|]. intros Hb Hlen Hrands.
  destruct (play_runs cfg rands weight0 Hlen Hrands) as (st & Hst & _).
  unfold episode. rewrite Hst. cbn [mbind option_bind].
  unfold backward_replay. rewrite Hb. f_equal. now apply Hplay.
Qed.

Lemma switches_off_witness :
  episode (Config false false) (replicate 30 (3, 7)) weight_init = Some weight_init.
Proof.
  apply (switches_off (Config false false) (replicate 30 (3, 7)) weight_init);
    [reflexivity | reflexivity | reflexivity | cbn; lia].
Defined.

(** X23. Training never leaves the table: however many episodes are
    run, with whatever draws (thirty pairs at least for each) and either
    switch on or off, every episode ends and hands a table of [6^4]
    entries to the next one. *)
Theorem episodes_total (cfg : config) (draws : list (list (Z * Z))) (weight0 : list float) :
  length weight0 = weight_size ->
  Forall (fun rands => (30 <= length rands)%nat) draws ->
  exists weight', episodes cfg draws weight0 = Some weight' /\
                  length weight' = weight_size.
Proof.
  intros Hlen Hdraws. revert weight0 Hlen.
  induction Hdraws as [|rands draws Hr _ IH]; intros weight0 Hlen.
  - exists weight0. split; [reflexivity | exact Hlen].
  - cbn [episodes].
    destruct (episode_runs_to_end cfg rands weight0 Hlen Hr) as (w1 & Hrun & Hlen1).
    rewrite Hrun. cbn [mbind option_bind]. now apply IH.
Qed.

Lemma episodes_total_witness :
  exists weight',
    episodes default_config [replicate 30 (0, 1); replicate 30 (2, 10)] weight_init =
      Some weight' /\
    length weight' = weight_size.
Proof.
  apply (episodes_total default_config [replicate 30 (0, 1); replicate 30 (2, 10)] weight_init);
    [reflexivity | repeat constructor; cbn; lia].
Defined.

(** ** Printing: lemmas *)

Ltac rank_cases r H :=
  let Hc := fresh "Hc" in
  assert (Hc : r = 0 \/ r = 1 \/ r = 2 \/ r = 3 \/ r = 4 \/ r = 5 \/ r = 6 \/ r = 7 \/
               r = 8 \/ r = 9 \/ r = 10 \/ r = 11 \/ r = 12 \/ r = 13 \/ r = 14 \/ r = 15)
    by (unfold rank_ok in H; lia);
  clear H;
  destruct Hc as [-> | [-> | [-> | [-> | [-> | [-> | [-> | [-> | [-> | [-> | [-> | [-> |
                 [-> | [-> | [-> | ->]]]]]]]]]]]]]]].

Lemma digits_16_nibbles (v : Z) :
  0 <= v < 65536 ->
  replicate (4 - length (digits 16 8 v)) 0 ++ digits 16 8 v =
  [v / 4096; v / 256 mod 16; v / 16 mod 16; v mod 16].
Proof.
  intros Hv. cbn [digits].
  destruct (Z.eqb_spec (v / 16) 0) as [E1 | E1];
    [|destruct (Z.eqb_spec (v / 16 / 16) 0) as [E2 | E2];
      [|destruct (Z.eqb_spec (v / 16 / 16 / 16) 0) as [E3 | E3];
        [|destruct (Z.eqb_spec (v / 16 / 16 / 16 / 16) 0) as [E4 | E4]]]];
    cbn [app length Nat.sub replicate];
    try (exfalso; revert E4; Z.div_mod_to_equations; lia);
    repeat (f_equal; try (Z.div_mod_to_equations; lia)).
Qed.

Lemma pad_digits (ds : list Z) :
  pad 4 "0"%char (digit_char <$> ds) =
  digit_char <$> (replicate (4 - length ds) 0 ++ ds).
Proof.
  unfold pad. rewrite fmap_app, length_fmap, fmap_replicate. reflexivity.
Qed.

Lemma name_nibbles (b : board) : board_ok b -> name b = nibble_name b.
Proof.
  intros Hok.
  assert (Hr : 0 <= operator_int b < 65536)
    by (revert Hok; unfold board_ok, rank_ok, operator_int; lia).
  unfold name, snprintf, printf_04x, wrap_unsigned, nibble_name.
  rewrite Z.mod_small by (change (2 ^ 32) with 4294967296; lia).
  rewrite pad_digits, digits_16_nibbles by exact Hr.
  cbn [fmap list_fmap take Nat.sub]. unfold cells. cbn [fmap list_fmap].
  replace (operator_int b / 4096) with (t00 b);
    [replace (operator_int b / 256 mod 16) with (t01 b);
      [replace (operator_int b / 16 mod 16) with (t10 b);
        [replace (operator_int b mod 16) with (t11 b); [reflexivity|]|]|]|];
    revert Hok; unfold board_ok, rank_ok, operator_int; intros (?&?&?&?);
    Z.div_mod_to_equations; lia.
Qed.

Lemma digit_char_inj (c d : Z) :
  rank_ok c -> rank_ok d -> digit_char c = digit_char d -> c = d.
Proof.
  intros Hc Hd. rank_cases c Hc; rank_cases d Hd; intros He;
    solve [reflexivity | discriminate He].
Qed.

(** X24. On a board of nibbles [name()] is the board written as four
    hexadecimal digits, one per cell in row-major order: it has four
    characters, which fit the buffer of 8, and two boards of the same
    name are equal. *)
Theorem name_spec (a b : board) :
  board_ok a -> board_ok b ->
  name a = string_of_list_ascii
             [digit_char (t00 a); digit_char (t01 a); digit_char (t10 a); digit_char (t11 a)] /\
  String.length (name a) = 4%nat /\
  (name a = name b -> a = b).
Proof.
  intros Ha Hb. rewrite (name_nibbles a Ha), (name_nibbles b Hb).
  split; [reflexivity|]. split; [reflexivity|].
  unfold nibble_name, cells. cbn [fmap list_fmap string_of_list_ascii].
  intros [= H0 H1 H2 H3].
  destruct Ha as (?&?&?&?), Hb as (?&?&?&?).
  apply board_eq; now apply digit_char_inj.
Qed.

Lemma name_spec_witness : String.length (name (Board 1 10 0 15)) = 4%nat.
Proof.
  apply (name_spec (Board 1 10 0 15) (Board 1 10 0 15));
    unfold board_ok, rank_ok; cbn; lia.
Defined.

Lemma printf_3u_tile (r : Z) :
  rank_ok r -> printf_3u (tile_value r) = list_ascii_of_string (tile_text r).
Proof. intros Hr. rank_cases r Hr; reflexivity. Qed.

Lemma tile_text_length (r : Z) :
  rank_ok r -> (3 <= String.length (tile_text r) <= 5)%nat /\
               (String.length (tile_text r) = 3%nat <-> r <= 9).
Proof.
  intros Hr.
  rank_cases r Hr;
    match goal with |- context [String.length ?t] =>
      let n := eval vm_compute in (String.length t) in
      change (String.length t) with n
    end; lia.
Qed.

Lemma string_of_list_ascii_app (l1 l2 : list ascii) :
  string_of_list_ascii (l1 ++ l2) =
  String.append (string_of_list_ascii l1) (string_of_list_ascii l2).
Proof. induction l1 as [|c l1 IH]; [reflexivity|]. cbn. now rewrite IH. Qed.

Lemma append_length (s1 s2 : string) :
  String.length (String.append s1 s2) = (String.length s1 + String.length s2)%nat.
Proof. induction s1 as [|c s1 IH]; [reflexivity|]. cbn. now rewrite IH. Qed.

Lemma list_ascii_length (s : string) : length (list_ascii_of_string s) = String.length s.
Proof. induction s as [|c s IH]; [reflexivity|]. cbn. now rewrite IH. Qed.

Lemma row_line_text (r0 r1 : Z) :
  rank_ok r0 -> rank_ok r1 ->
  row_line r0 r1 =
  String.append "|" (String.append (tile_text r0) (String.append (tile_text r1) "|")).
Proof.
  intros H0 H1. unfold row_line, snprintf.
  rewrite !printf_3u_tile by assumption.
  rewrite take_ge.
  - change ("|"%char :: ?l) with (["|"%char] ++ l).
    rewrite !string_of_list_ascii_app, !string_of_list_ascii_of_string. reflexivity.
  - cbn [length]. rewrite !length_app, !list_ascii_length. cbn [length].
    pose proof (proj1 (tile_text_length r0 H0)). pose proof (proj1 (tile_text_length r1 H1)).
    lia.
Qed.

(** X25. [operator<<] on a board of nibbles writes the frame and, between
    bars, the face value of each cell right-aligned in three columns, 0
    for an empty cell. The four lines have the same width of 8 exactly
    when no rank exceeds 9: from the 1024-tile on a row is wider than the
    frame. Nothing is cut by the buffer of 32. *)
Theorem operator_shl_spec (b : board) :
  board_ok b ->
  operator_shl b =
    ["+------+"%string;
     String.append "|" (String.append (tile_text (t00 b)) (String.append (tile_text (t01 b)) "|"));
     String.append "|" (String.append (tile_text (t10 b)) (String.append (tile_text (t11 b)) "|"));
     "+------+"%string] /\
  (Forall (fun line => String.length line = 8%nat) (operator_shl b) <->
   Forall (fun r => r <= 9) (cells b)).
Proof.
  intros (H00 & H01 & H10 & H11). unfold operator_shl.
  rewrite !row_line_text by assumption. split; [reflexivity|].
  unfold cells. rewrite !Forall_cons, !Forall_nil.
  cbn [String.append String.length]. rewrite !append_length. cbn [String.length].
  pose proof (tile_text_length _ H00) as [? ?]. pose proof (tile_text_length _ H01) as [? ?].
  pose proof (tile_text_length _ H10) as [? ?]. pose proof (tile_text_length _ H11) as [? ?].
  lia.
Qed.

Lemma operator_shl_spec_witness :
  operator_shl (Board 1 0 5 2) = ["+------+"; "|  2  0|"; "| 32  4|"; "+------+"]%string.
Proof.
  apply (operator_shl_spec (Board 1 0 5 2)). unfold board_ok, rank_ok; cbn; lia.
Defined.

(** ** Sanity checks on concrete inputs *)

Example alpha_value : alpha = S754_finite false 10737418 (-30).
Proof. reflexivity. Qed.

Example FLT_MAX_value : FLT_MAX = S754_finite false 16777215 104.
Proof. reflexivity. Qed.

(** A single tile in the top-left corner cannot move to the left. *)
Example single_tile_left :
  move 3 (operator_assign 4096) = (-1, operator_assign 4096).
Proof. reflexivity. Qed.

(** A full board of pairwise different neighbours is terminal. *)
Example terminal_board (opcode : Z) : fst (move opcode (Board 2 4 1 2)) = -1.
Proof. destruct opcode as [|[[?|?|]|[?|?|]|]|?]; reflexivity. Qed.

(** Two rank-15 tiles merge into rank 16, which no longer fits a nibble:
    beyond the boards of nibbles the packed value stops identifying the
    board. *)
Example rank_16_overflows_nibble :
  move 3 (operator_assign 65280) = (65536, Board 16 0 0 0) /\
  operator_int (Board 16 16 0 0) = operator_int (Board 17 0 0 0).
Proof. split; reflexivity. Qed.

(** A rank above 5 in the leading cell indexes past the table. *)
Example V_out_of_bounds : V weight_init (Board 6 0 0 0) = None.
Proof. reflexivity. Qed.

(** The eight nominal variants of a board; the fifth repeats the first. *)
Example variants_1234 :
  variant (Board 1 2 3 4) <$> seq 0 isomorphic_count =
  [Board 1 2 3 4; Board 3 1 4 2; Board 4 3 2 1; Board 2 4 1 3;
   Board 1 2 3 4; Board 4 2 3 1; Board 3 4 1 2; Board 1 3 2 4].
Proof. reflexivity. Qed.

(** A whole episode of ten moves, played forward and replayed backward. *)
Example episode_runs :
  let rands := [(0,1);(1,2);(2,3);(3,10);(1,5);(0,7);(2,20);(1,1);(0,3);(3,4);(2,5)] in
  (actions <$> play default_config rands (Learner weight_init [] []) board_empty) =
    Some [1; 0; 0; 2; 1; 2; 1; 0; 1; 1]%nat /\
  (length <$> episode (Config true true) rands weight_init) = Some weight_size.
Proof. vm_compute. split; reflexivity. Qed.
